(** * Model surgery: key paths and scoped layer edits

    A shallow embedding of [tuned_lens/model_surgery.py].  The Python
    object graph is a store of objects addressed by references; each
    function of the module becomes a computation in a state-and-exception
    monad over that store.  Path segments are Unicode strings; what
    [str.isdigit] and [int] make of a character beyond ASCII is read from a
    table of digits the development is parameterised by. *)

From Stdlib Require Import ZArith Ascii String.
From stdpp Require Import gmap strings list fin_maps sorting.

Open Scope Z_scope.
Open Scope string_scope.

(** ** The object store *)

(** Classes the module tests with [isinstance], plus the built-in list and
    a catch-all for every other class. *)
Inductive pyclass :=
  | OPTModel | GPTNeoXModel | BloomModel | GPT2Model | GPTNeoModel | GPTJModel
  | LayerNorm | ModuleList | BuiltinList
  | OtherClass (name : string).

Global Instance pyclass_eq_dec : EqDecision pyclass.
Proof. solve_decision. Defined.

Abbreviation loc := positive.

(** A Python value held in an attribute or a container slot: [None] or a
    reference to an object of the store. *)
Inductive val :=
  | VNone
  | VRef (l : loc).
Arguments VRef l%_positive.

Global Instance val_eq_dec : EqDecision val.
Proof. solve_decision. Defined.

(** An object has a class, named attributes and, when it is subscriptable,
    ordered children.  Named attributes and ordered children are separate
    stores, as in the data model of the module's documentation. *)
Record object := Object {
  cls : pyclass;
  attrs : gmap string val;
  items : option (list val)
}.

Definition empty_object : object :=
  {| cls := OtherClass "object"; attrs := ∅; items := None |}.

Abbreviation heap := (gmap positive object).

(** Every reference denotes an object: one that was never allocated reads
    as an object without attributes or children. *)
Definition deref (h : heap) (l : loc) : object := default empty_object (h !! l).

(** Instances of the built-in list have no [__dict__]: [setattr] on them
    raises [AttributeError]. *)
Definition has_dict (c : pyclass) : bool :=
  match c with BuiltinList => false | _ => true end.

(** ** Exceptions and the monad *)

Inductive exn :=
  | AttributeError | IndexError | TypeError
  | ValueError | NotImplementedError | AssertionError
  | UserError (tag : nat).

Global Instance exn_eq_dec : EqDecision exn.
Proof. solve_decision. Defined.

Inductive result (A : Type) :=
  | Ok (a : A)
  | Raise (e : exn).
Arguments Ok {A} a.
Arguments Raise {A} e.

(** A computation reads and writes the store and returns or raises; what it
    wrote before raising stays written. *)
Definition Py (A : Type) : Type := heap → heap * result A.

Definition ret {A} (a : A) : Py A := λ h, (h, Ok a).
Definition raise {A} (e : exn) : Py A := λ h, (h, Raise e).
Definition bind {A B} (m : Py A) (k : A → Py B) : Py B :=
  λ h, match m h with
       | (h', Ok a) => k a h'
       | (h', Raise e) => (h', Raise e)
       end.

Notation "'do' x <- m ; k" := (bind m (λ x, k))
  (at level 10, x pattern, m at level 100, k at level 200,
   format "'[v' 'do'  x  <-  m ; '/' k ']'").
Notation "m ;;; k" := (bind m (λ _, k))
  (at level 100, k at level 200, right associativity).

(** The outcome of an expression that does not touch the store. *)
Definition lift {A} (r : result A) : Py A := λ h, (h, r).

(** [try: body finally: cleanup]: the cleanup always runs; if it raises,
    its exception replaces the outcome of the body. *)
Definition try_finally {A} (body : Py A) (cleanup : Py unit) : Py A :=
  λ h, let '(h1, r) := body h in
       match cleanup h1 with
       | (h2, Ok _) => (h2, r)
       | (h2, Raise e) => (h2, Raise e)
       end.

(** A [for] loop over a Python list. *)
Fixpoint for_each {A} (xs : list A) (f : A → Py unit) : Py unit :=
  match xs with
  | [] => ret tt
  | x :: xs' => f x ;;; for_each xs' f
  end.

(** A list comprehension [[f x for x in xs]]. *)
Fixpoint comprehension {A B} (xs : list A) (f : A → Py B) : Py (list B) :=
  match xs with
  | [] => ret []
  | x :: xs' => do y <- f x; do ys <- comprehension xs' f; ret (y :: ys)
  end.

(** ** Python primitives *)

(** Position addressed by index [i] in a sequence of length [n]; negative
    indices count from the end, anything outside [-n <= i < n] is out of
    range. *)
Definition norm_index (n : nat) (i : Z) : option nat :=
  if decide (- Z.of_nat n ≤ i < Z.of_nat n)
  then Some (Z.to_nat (if decide (i < 0) then i + Z.of_nat n else i))
  else None.

(** [getattr(o, k)].  Only instance attributes are modelled, so an object
    without [__dict__] has none to read. *)
Definition py_getattr (o : val) (k : string) : Py val :=
  λ h, match o with
       | VNone => (h, Raise AttributeError)
       | VRef l =>
           let ob := deref h l in
           if has_dict (cls ob) then
             match attrs ob !! k with
             | Some v => (h, Ok v)
             | None => (h, Raise AttributeError)
             end
           else (h, Raise AttributeError)
       end.

(** [hasattr(o, k)]: whether [getattr] succeeds. *)
Definition py_hasattr (o : val) (k : string) : Py bool :=
  λ h, match py_getattr o k h with
       | (_, Ok _) => (h, Ok true)
       | (_, Raise _) => (h, Ok false)
       end.

(** The store after attribute [k] of the object at [l] is set to [v]. *)
Definition store_attr (l : loc) (k : string) (v : val) (h : heap) : heap :=
  let ob := deref h l in
  <[l := {| cls := cls ob; attrs := <[k := v]> (attrs ob); items := items ob |}]> h.

(** [setattr(o, k, v)] with the default [__setattr__]: the value is stored
    among the instance attributes of [o], whatever it is; an object without
    [__dict__] takes no attribute. *)
Definition py_setattr (o : val) (k : string) (v : val) : Py unit :=
  λ h, match o with
       | VNone => (h, Raise AttributeError)
       | VRef l =>
           if has_dict (cls (deref h l)) then (store_attr l k v h, Ok tt)
           else (h, Raise AttributeError)
       end.

(** [len] and iteration need the ordered children; an object without them
    is not iterable. *)
Definition py_iter (o : val) : Py (list val) :=
  λ h, match o with
       | VNone => (h, Raise TypeError)
       | VRef l =>
           match items (deref h l) with
           | Some xs => (h, Ok xs)
           | None => (h, Raise TypeError)
           end
       end.

(** [xs[i]] on a sequence, [None] when out of range. *)
Definition seq_at {A} (xs : list A) (i : Z) : option A :=
  match norm_index (length xs) i with
  | Some k => xs !! k
  | None => None
  end.

(** [o[i]] *)
Definition py_getitem (o : val) (i : Z) : Py val :=
  do xs <- py_iter o;
  match seq_at xs i with
  | Some v => ret v
  | None => raise IndexError
  end.

Definition set_items (l : loc) (xs : list val) : Py unit :=
  λ h, let ob := deref h l in
       (<[l := {| cls := cls ob; attrs := attrs ob; items := Some xs |}]> h, Ok tt).

(** [o[i] = v] on a mutable sequence: the child at the position is
    replaced, whatever the value is. *)
Definition py_setitem (o : val) (i : Z) (v : val) : Py unit :=
  do xs <- py_iter o;
  match o, norm_index (length xs) i with
  | VRef l, Some k => set_items l (<[k := v]> xs)
  | _, _ => raise IndexError
  end.

(** [del o[i]] on a mutable sequence. *)
Definition py_delitem (o : val) (i : Z) : Py unit :=
  do xs <- py_iter o;
  match o, norm_index (length xs) i with
  | VRef l, Some k => set_items l (delete k xs)
  | _, _ => raise IndexError
  end.

(** Allocation of a new object at an unused reference. *)
Definition alloc (ob : object) : Py val :=
  λ h, let l := fresh (dom h) in (<[l := ob]> h, Ok (VRef l)).

(** [th.nn.ModuleList(xs)]: a new container holding the given children. *)
Definition new_ModuleList (xs : list val) : Py val :=
  alloc {| cls := ModuleList; attrs := ∅; items := Some xs |}.

(** [isinstance(o, c)] *)
Definition py_isinstance (o : val) (c : pyclass) : Py bool :=
  λ h, match o with
       | VNone => (h, Ok false)
       | VRef l => (h, Ok (bool_decide (cls (deref h l) = c)))
       end.

(** ** Context managers

    A [@contextmanager] generator runs up to its [yield] on entry and runs
    its [finally] block on exit.  The state kept between the two is the
    pair of local variables the [finally] block reads besides the model:
    the key path and the value to put back. *)
Record contextmanager (Y : Type) := ContextManager {
  cm_enter : Py ((string * val) * Y);
  cm_exit : string * val → Py unit
}.
Arguments cm_enter {Y} _.
Arguments cm_exit {Y} _ _.

(** [with cm as y: body(y)] *)
Definition with_ {Y A} (cm : contextmanager Y) (body : Y → Py A) : Py A :=
  do (st, y) <- cm_enter cm;
  try_finally (body y) (cm_exit cm st).

(** ** Strings

    A Python string is a sequence of Unicode characters.  It is held here
    as the bytes of its UTF-8 encoding, so that a string literal of this
    file is the Python literal with the same text. *)

(** The code points of a string; [None] for bytes that encode no string. *)
Definition continuation (b : ascii) : option N :=
  let n := N_of_ascii b in
  if ((128 <=? n) && (n <? 192))%N then Some (n - 128)%N else None.

Fixpoint code_points (s : string) : option (list N) :=
  match s with
  | EmptyString => Some []
  | String b0 s1 =>
      let n0 := N_of_ascii b0 in
      if (n0 <? 128)%N then cons n0 <$> code_points s1
      else if (n0 <? 192)%N then None
      else if (n0 <? 224)%N then
        match s1 with
        | String b1 s2 =>
            match continuation b1 with
            | Some n1 => cons ((n0 - 192) * 64 + n1)%N <$> code_points s2
            | None => None
            end
        | _ => None
        end
      else if (n0 <? 240)%N then
        match s1 with
        | String b1 (String b2 s3) =>
            match continuation b1, continuation b2 with
            | Some n1, Some n2 =>
                cons ((n0 - 224) * 4096 + n1 * 64 + n2)%N <$> code_points s3
            | _, _ => None
            end
        | _ => None
        end
      else if (n0 <? 248)%N then
        match s1 with
        | String b1 (String b2 (String b3 s4)) =>
            match continuation b1, continuation b2, continuation b3 with
            | Some n1, Some n2, Some n3 =>
                cons ((n0 - 240) * 262144 + n1 * 4096 + n2 * 64 + n3)%N
                  <$> code_points s4
            | _, _, _ => None
            end
        | _ => None
        end
      else None
  end.

(** What the Unicode character database says of a character, as far as
    [str.isdigit] and [int] consult it: a decimal digit with its value, a
    digit of another kind (a superscript, a circled digit), or no digit. *)
Inductive digit_kind :=
  | DecimalDigit (value : nat)
  | OtherDigit
  | NotDigit.

Global Instance digit_kind_eq_dec : EqDecision digit_kind.
Proof. solve_decision. Defined.

(** The ASCII characters: the decimal digits are ['0'] to ['9']. *)
Definition ascii_kind (c : N) : digit_kind :=
  if ((48 <=? c) && (c <=? 57))%N then DecimalDigit (N.to_nat (c - 48))
  else NotDigit.

(** The database beyond ASCII is not part of the module and is not written
    out here: the development holds for every table, given by code point,
    that has these two entries of the database: SUPERSCRIPT TWO (U+00B2) is
    a digit that is not decimal, ARABIC-INDIC DIGIT THREE (U+0663) is the
    decimal digit 3. *)
Class Unicode := {
  numeric_kind : N → digit_kind;
  superscript_two : numeric_kind 178 = OtherDigit;
  arabic_indic_digit_three : numeric_kind 1635 = DecimalDigit 3
}.

(** A table with no digit beyond ASCII but the two entries; the sample runs
    are evaluated with it. *)
Definition basic_unicode : Unicode :=
  {| numeric_kind := λ c,
       if (c =? 178)%N then OtherDigit
       else if (c =? 1635)%N then DecimalDigit 3
       else NotDigit;
     superscript_two := eq_refl;
     arabic_indic_digit_three := eq_refl |}.

Fixpoint split_dot_aux (s : string) : string * list string :=
  match s with
  | EmptyString => (EmptyString, [])
  | String c s' =>
      let '(seg, rest) := split_dot_aux s' in
      if Ascii.eqb c "."%char then (EmptyString, seg :: rest)
      else (String c seg, rest)
  end.

(** [s.split(".")]: never empty; the empty string splits into one empty
    segment. *)
Definition split_dot (s : string) : list string :=
  let '(seg, rest) := split_dot_aux s in seg :: rest.

(** [".".join(segs)] *)
Fixpoint join_dot (segs : list string) : string :=
  match segs with
  | [] => ""
  | [s] => s
  | s :: rest => s ++ "." ++ join_dot rest
  end.

(** ** Tactics *)

(** Closes [x ∉ [a; b; ...]] for distinct constants. *)
Ltac not_among :=
  let Hin := fresh "Hin" in
  intros Hin; repeat (apply elem_of_cons in Hin as [Hin|Hin]; [discriminate|]);
  inversion Hin.

(** Decides the [isinstance] tests once the class of the object is known. *)
Ltac decide_classes Hc :=
  repeat (rewrite ?Hc;
          match goal with
          | |- context [bool_decide ?P] =>
              let b := eval vm_compute in (bool_decide P) in
              change (bool_decide P) with b
          end; cbv beta iota).

Section program.
Context `{U : Unicode}.

Definition char_kind (c : N) : digit_kind :=
  if (c <? 128)%N then ascii_kind c else numeric_kind c.

Definition is_digit (c : N) : bool :=
  match char_kind c with NotDigit => false | _ => true end.

(** [str.isdigit]: the string is not empty and each of its characters is a
    digit, decimal or not. *)
Definition isdigit (s : string) : bool :=
  match code_points s with
  | Some (c :: cs) => forallb is_digit (c :: cs)
  | _ => false
  end.

Fixpoint int_acc (acc : Z) (cs : list N) : option Z :=
  match cs with
  | [] => Some acc
  | c :: cs' =>
      match char_kind c with
      | DecimalDigit d => int_acc (10 * acc + Z.of_nat d) cs'
      | _ => None
      end
  end.

(** [int(s)] on a string of digits: the number its decimal digits denote;
    a digit that is not decimal raises [ValueError].  The cap an
    interpreter may put on the length of the numerals it converts is a
    setting of the interpreter and is left out. *)
Definition int (s : string) : result Z :=
  match code_points s with
  | Some (c :: cs) =>
      match int_acc 0 (c :: cs) with
      | Some i => Ok i
      | None => Raise ValueError
      end
  | _ => Raise ValueError
  end.

(** ** Key paths (source lines 9-38) *)

Definition get_value_for_key (obj : val) (key : string) : Py val :=
  if isdigit key then do i <- lift (int key); py_getitem obj i
  else py_getattr obj key.

Definition set_value_for_key_ (obj : val) (key : string) (value : val) : Py unit :=
  if isdigit key then do i <- lift (int key); py_setitem obj i value
  else py_setattr obj key value.

(** The loop [for key in keys: model = get_value_for_key(model, key)]. *)
Fixpoint walk (model : val) (keys : list string) : Py val :=
  match keys with
  | [] => ret model
  | key :: keys' => do model' <- get_value_for_key model key; walk model' keys'
  end.

Definition get_key_path (model : val) (key_path : string) : Py val :=
  walk model (split_dot key_path).

(** [keys[:-1]] and [keys[-1]] *)
Definition all_but_last {A} (keys : list A) : list A :=
  take (length keys - 1)%nat keys.

Definition last_item {A} (keys : list A) : Py A :=
  match seq_at keys (-1) with
  | Some x => ret x
  | None => raise IndexError
  end.

(** The last step is [setattr], whatever the last key looks like. *)
Definition set_key_path_ (model : val) (key_path : string) (value : val) : Py unit :=
  let keys := split_dot key_path in
  do model' <- walk model (all_but_last keys);
  do k <- last_item keys;
  py_setattr model' k value.

(** ** Scoped assignment (source lines 44-52) *)

Definition assign_key_path (model : val) (key_path : string) (value : val)
  : contextmanager val :=
  {| cm_enter :=
       do old_value <- get_key_path model key_path;
       set_key_path_ model key_path value ;;;
       ret ((key_path, old_value), model);
     cm_exit := λ '(key_path, old_value),
       set_key_path_ model key_path old_value |}.

(** ** Locating the final norm and the layer list (source lines 55-125) *)

(** [isinstance(o, (c1, ..., cn))] *)
Definition py_isinstance_any (o : val) (cs : list pyclass) : Py bool :=
  λ h, match o with
       | VNone => (h, Ok false)
       | VRef l => (h, Ok (bool_decide (cls (deref h l) ∈ cs)))
       end.

Definition get_final_norm (model : val) : Py val :=
  do has <- py_hasattr model "base_model";
  if negb has then raise ValueError else
  do base_model <- py_getattr model "base_model";
  do final_layer_norm <-
    (do is_opt <- py_isinstance base_model OPTModel;
     if is_opt then
       do decoder <- py_getattr base_model "decoder";
       py_getattr decoder "final_layer_norm"
     else
     do is_neox <- py_isinstance base_model GPTNeoXModel;
     if is_neox then py_getattr base_model "final_layer_norm"
     else
     do is_gpt <- py_isinstance_any base_model
                    [BloomModel; GPT2Model; GPTNeoModel; GPTJModel];
     if is_gpt then py_getattr base_model "ln_f"
     else raise NotImplementedError);
  match final_layer_norm with
  | VNone => raise ValueError
  | _ =>
      do is_ln <- py_isinstance final_layer_norm LayerNorm;
      if is_ln then ret final_layer_norm else raise AssertionError
  end.

Definition get_transformer_layers (model : val) : Py (string * val) :=
  do has <- py_hasattr model "base_model";
  if negb has then raise ValueError else
  let path_to_layers := ["base_model"] in
  do base_model <- py_getattr model "base_model";
  do path_to_layers <-
    (do is_opt <- py_isinstance base_model OPTModel;
     if is_opt then ret (path_to_layers ++ ["decoder"; "layers"])%list
     else
     do is_neox <- py_isinstance base_model GPTNeoXModel;
     if is_neox then ret (path_to_layers ++ ["layers"])%list
     else
     do is_gpt <- py_isinstance_any base_model
                    [BloomModel; GPT2Model; GPTNeoModel; GPTJModel];
     if is_gpt then ret (path_to_layers ++ ["h"])%list
     else raise NotImplementedError);
  let path_to_layers := join_dot path_to_layers in
  do layers <- get_key_path model path_to_layers;
  ret (path_to_layers, layers).

(** ** Layer operations (source lines 128-185) *)

(** [sorted(indices, reverse=True)] *)
Definition sorted_reverse (indices : list Z) : list Z :=
  merge_sort Z.ge indices.

Definition delete_layers (model : val) (indices : list Z) : contextmanager val :=
  {| cm_enter :=
       do (list_path, layer_list) <- get_transformer_layers model;
       do layers <- py_iter layer_list;
       do modified_list <- new_ModuleList layers;
       for_each (sorted_reverse indices) (λ i, py_delitem modified_list i) ;;;
       set_key_path_ model list_path modified_list ;;;
       ret ((list_path, layer_list), model);
     cm_exit := λ '(list_path, layer_list),
       set_key_path_ model list_path layer_list |}.

Definition permute_layers (model : val) (indices : list Z) : contextmanager val :=
  {| cm_enter :=
       do (list_path, layer_list) <- get_transformer_layers model;
       do permuted <- comprehension indices (λ i, py_getitem layer_list i);
       do permuted_list <- new_ModuleList permuted;
       set_key_path_ model list_path permuted_list ;;;
       ret ((list_path, layer_list), model);
     cm_exit := λ '(list_path, layer_list),
       set_key_path_ model list_path layer_list |}.

Definition permute_layers_ (model : val) (indices : list Z) : Py unit :=
  do (list_path, layer_list) <- get_transformer_layers model;
  do permuted <- comprehension indices (λ i, py_getitem layer_list i);
  do permuted_list <- new_ModuleList permuted;
  set_key_path_ model list_path permuted_list.

Definition replace_layers (model : val) (indices : list Z) (replacements : list val)
  : contextmanager val :=
  {| cm_enter :=
       do (list_path, layer_list) <- get_transformer_layers model;
       do layers <- py_iter layer_list;
       do modified_list <- new_ModuleList layers;
       for_each (zip indices replacements)
         (λ '(i, replacement), py_setitem modified_list i replacement) ;;;
       set_key_path_ model list_path modified_list ;;;
       ret ((list_path, layer_list), model);
     cm_exit := λ '(list_path, layer_list),
       set_key_path_ model list_path layer_list |}.

(** ** Definitions used to state the properties *)

(** The setter as the module's documentation describes it: the walk of
    [set_key_path_], then the write by [set_value_for_key_] (an index
    assignment for a numeric last key). *)
Definition set_key_path_documented (model : val) (key_path : string) (value : val)
  : Py unit :=
  let keys := split_dot key_path in
  do model' <- walk model (all_but_last keys);
  do k <- last_item keys;
  set_value_for_key_ model' k value.

(** The four scoped operations. *)
Inductive scoped_op :=
  | AssignKeyPath (key_path : string) (value : val)
  | DeleteLayers (indices : list Z)
  | PermuteLayers (indices : list Z)
  | ReplaceLayers (indices : list Z) (replacements : list val).

Definition scoped (model : val) (op : scoped_op) : contextmanager val :=
  match op with
  | AssignKeyPath key_path value => assign_key_path model key_path value
  | DeleteLayers indices => delete_layers model indices
  | PermuteLayers indices => permute_layers model indices
  | ReplaceLayers indices replacements => replace_layers model indices replacements
  end.

(** A key path whose last segment is a name that occurs nowhere earlier in
    the path. *)
Definition plain_path (key_path : string) : Prop :=
  ∃ prefix k, split_dot key_path = (prefix ++ [k])%list ∧ (k ∉ prefix) ∧ isdigit k = false.

(** The write at [key_path] can be carried out in store [h]: the walk of all
    but the last segment ends at an object that takes attributes. *)
Definition restorable (model : val) (key_path : string) (h : heap) : Prop :=
  ∃ l, walk model (all_but_last (split_dot key_path)) h = (h, Ok (VRef l))
       ∧ has_dict (cls (deref h l)) = true.

(** [xs] without the elements whose position, counted from [pos], is listed
    in [drop]. *)
Fixpoint without_positions {A} (pos : Z) (drop : list Z) (xs : list A) : list A :=
  match xs with
  | [] => []
  | x :: xs' =>
      if decide (pos ∈ drop) then without_positions (pos + 1) drop xs'
      else x :: without_positions (pos + 1) drop xs'
  end.

(** The list each layer operation builds and installs, as a computation of
    its own: the part of the generator between locating the layer list and
    writing the new list at its path. *)
Definition build_deleted (indices : list Z) (layer_list : val) : Py val :=
  do layers <- py_iter layer_list;
  do modified_list <- new_ModuleList layers;
  for_each (sorted_reverse indices) (λ i, py_delitem modified_list i) ;;;
  ret modified_list.

Definition build_permuted (indices : list Z) (layer_list : val) : Py val :=
  do permuted <- comprehension indices (λ i, py_getitem layer_list i);
  new_ModuleList permuted.

Definition build_replaced (indices : list Z) (replacements : list val)
    (layer_list : val) : Py val :=
  do layers <- py_iter layer_list;
  do modified_list <- new_ModuleList layers;
  for_each (zip indices replacements)
    (λ '(i, replacement), py_setitem modified_list i replacement) ;;;
  ret modified_list.

Definition install_built (model : val) (build : val → Py val)
  : Py ((string * val) * val) :=
  do (list_path, layer_list) <- get_transformer_layers model;
  do new_list <- build layer_list;
  set_key_path_ model list_path new_list ;;;
  ret ((list_path, layer_list), model).

(** The effect of the deletion loop on the children of the copy: the
    children left when the loop stops, and how it stopped. *)
Fixpoint delete_loop {A} (order : list Z) (xs : list A) : list A * result unit :=
  match order with
  | [] => (xs, Ok tt)
  | i :: order' =>
      match norm_index (length xs) i with
      | Some k => delete_loop order' (delete k xs)
      | None => (xs, Raise IndexError)
      end
  end.

(** The same for the replacement loop. *)
Fixpoint replace_loop {A} (pairs : list (Z * A)) (xs : list A) : list A * result unit :=
  match pairs with
  | [] => (xs, Ok tt)
  | (i, x) :: pairs' =>
      match norm_index (length xs) i with
      | Some k => replace_loop pairs' (<[k := x]> xs)
      | None => (xs, Raise IndexError)
      end
  end.

(** An index within the bounds of a sequence of length [n], counting
    negative indices from the end. *)
Definition in_bounds (n : nat) (i : Z) : Prop := - Z.of_nat n ≤ i < Z.of_nat n.

(** Every object of [h] is the same in [h']. *)
Definition unmodified (h h' : heap) : Prop := h ⊆ h'.

(** The scope of [op] on [model] restores the reference at the mutated
    path whatever the body does: once the scope is entered, the [with]
    statement ends with the outcome of the body and the path resolves to
    what it resolved to before entry. *)
Definition restores_reference (model : val) (op : scoped_op) : Prop :=
  ∀ (body : val → Py unit) h h1 key_path old y,
    cm_enter (scoped model op) h = (h1, Ok ((key_path, old), y)) →
    ∃ h3, with_ (scoped model op) body h = (h3, (body y h1).2)
          ∧ get_key_path model key_path h3 = (h3, (get_key_path model key_path h).2).

(** In store [h] the layer list of [model] is the object [layer_list], found
    at [list_path], and its children are [layers]. *)
Definition located (model : val) (h : heap) (list_path : string)
    (layer_list : val) (layers : list val) : Prop :=
  get_transformer_layers model h = (h, Ok (list_path, layer_list))
  ∧ py_iter layer_list h = (h, Ok layers).

(** Inside the scope of [cm], entered from store [h]: the store is [h1],
    the generator has yielded the model and kept the path and the original
    list for its exit, and the path resolves to a list object that is not
    the original and has children [new]. *)
Definition installed (cm : contextmanager val) (model : val) (h : heap)
    (list_path : string) (layer_list : val) (h1 : heap) (new : list val) : Prop :=
  cm_enter cm h = (h1, Ok ((list_path, layer_list), model))
  ∧ ∃ new_list, get_key_path model list_path h1 = (h1, Ok new_list)
                ∧ new_list ≠ layer_list
                ∧ py_iter new_list h1 = (h1, Ok new).

(** Entering the scope of [cm] raises [IndexError]; every object of the
    store is as it was and the path still resolves to the original list. *)
Definition refused (cm : contextmanager val) (model : val) (h : heap)
    (list_path : string) (layer_list : val) : Prop :=
  ∃ h1, cm_enter cm h = (h1, Raise IndexError)
        ∧ unmodified h h1
        ∧ get_key_path model list_path h1 = (h1, Ok layer_list).

(** [replace_layers] raises [IndexError] whenever one of the indices it is
    given is out of bounds. *)
Definition replace_raises_on_any_out_of_bounds : Prop :=
  ∀ model h list_path layer_list layers indices replacements i,
    located model h list_path layer_list layers →
    i ∈ indices → ¬ in_bounds (length layers) i →
    ∃ h1, cm_enter (replace_layers model indices replacements) h
          = (h1, Raise IndexError).

(** Inside the scope of [replace_layers] every zipped index holds its
    replacement. *)
Definition replaced_positions_hold_replacements : Prop :=
  ∀ model h list_path layer_list layers indices replacements h1 new,
    located model h list_path layer_list layers →
    installed (replace_layers model indices replacements) model h list_path
      layer_list h1 new →
    ∀ k i r, indices !! k = Some i → replacements !! k = Some r →
             seq_at new i = Some r.

(** [delete_layers] does not raise on negative indices within bounds. *)
Definition delete_accepts_negative_indices : Prop :=
  ∀ model h list_path layer_list layers indices,
    located model h list_path layer_list layers →
    Forall (λ i, - Z.of_nat (length layers) ≤ i < 0) indices →
    ∃ h1 st, cm_enter (delete_layers model indices) h = (h1, Ok st).

(** The [base_model] handle of a model, when it has one. *)
Definition handle (model : val) (h : heap) : option val :=
  match model with
  | VNone => None
  | VRef l => if has_dict (cls (deref h l)) then attrs (deref h l) !! "base_model"
              else None
  end.

(** The architecture families the module recognizes. *)
Definition recognized_classes : list pyclass :=
  [OPTModel; GPTNeoXModel; BloomModel; GPT2Model; GPTNeoModel; GPTJModel].

Definition recognized (base_model : val) (h : heap) : Prop :=
  ∃ l, base_model = VRef l ∧ cls (deref h l) ∈ recognized_classes.

(** Where each family keeps its layer list and its final norm, relative to
    the base model. *)
Definition layers_keys (c : pyclass) : option (list string) :=
  match c with
  | OPTModel => Some ["decoder"; "layers"]
  | GPTNeoXModel => Some ["layers"]
  | BloomModel | GPT2Model | GPTNeoModel | GPTJModel => Some ["h"]
  | _ => None
  end.

Definition norm_keys (c : pyclass) : option (list string) :=
  match c with
  | OPTModel => Some ["decoder"; "final_layer_norm"]
  | GPTNeoXModel => Some ["final_layer_norm"]
  | BloomModel | GPT2Model | GPTNeoModel | GPTJModel => Some ["ln_f"]
  | _ => None
  end.

Definition class_of (o : val) (h : heap) : option pyclass :=
  match o with
  | VNone => None
  | VRef l => Some (cls (deref h l))
  end.

(** A locator raises the configuration error exactly when the model has no
    [base_model] handle. *)
Definition config_error_iff_no_handle {A} (locate : val → Py A) : Prop :=
  ∀ model h, (locate model h).2 = Raise ValueError ↔ handle model h = None.

(** A locator raises the unsupported-architecture error exactly when the
    handle is there and belongs to no recognized family. *)
Definition unsupported_iff_unrecognized {A} (locate : val → Py A) : Prop :=
  ∀ model h, (locate model h).2 = Raise NotImplementedError
             ↔ ∃ b, handle model h = Some b ∧ ¬ recognized b h.

(** The key path of the layer list, from the model, and of the final norm,
    from the base model, for a base model of class [c] of a recognized
    family. *)
Definition layers_path (c : pyclass) : string :=
  match c with
  | OPTModel => "base_model.decoder.layers"
  | GPTNeoXModel => "base_model.layers"
  | _ => "base_model.h"
  end.

Definition norm_path (c : pyclass) : string :=
  match c with
  | OPTModel => "decoder.final_layer_norm"
  | GPTNeoXModel => "final_layer_norm"
  | _ => "ln_f"
  end.





(** A segment composed entirely of decimal digits, with the digits it is
    composed of: it is not empty and each of its characters is a decimal
    digit. *)
Definition decimal_segment (key : string) (ds : list nat) : Prop :=
  ∃ cs, code_points key = Some cs ∧ cs ≠ [] ∧
        Forall2 (λ c d, char_kind c = DecimalDigit d) cs ds.

(** The number a sequence of decimal digits denotes in base ten, most
    significant digit first. *)
Definition denoted (ds : list nat) : Z :=
  foldl (λ acc d, 10 * acc + Z.of_nat d) 0 ds.


(** The rule in the words of the documentation: a segment composed entirely
    of decimal digits is an index, anything else is a name. *)
Definition digits_index_others_name : Prop :=
  ∀ obj key h,
    (∀ ds, decimal_segment key ds →
           get_value_for_key obj key h = py_getitem obj (denoted ds) h)
    ∧ ((∀ ds, ¬ decimal_segment key ds) →
       get_value_for_key obj key h = py_getattr obj key h).

(** ** Sample stores *)

Definition block : object :=
  {| cls := OtherClass "Block"; attrs := ∅; items := None |}.

(** A GPT-2 style model at reference 1 whose layer list, at reference 3,
    holds the given layers; blocks live at references 10 to 14. *)
Definition gpt2_model (layers : list val) : heap :=
  list_to_map
    [(1%positive, {| cls := OtherClass "GPT2LMHeadModel";
                     attrs := {[ "base_model" := VRef 2 ]}; items := None |});
     (2%positive, {| cls := GPT2Model;
                     attrs := <[ "ln_f" := VRef 4 ]> {[ "h" := VRef 3 ]};
                     items := None |});
     (3%positive, {| cls := ModuleList; attrs := ∅; items := Some layers |});
     (4%positive, {| cls := LayerNorm; attrs := ∅; items := None |});
     (10%positive, block); (11%positive, block); (12%positive, block);
     (13%positive, block); (14%positive, block)].

(** With five, four and two layers. *)
Definition gpt2_store : heap :=
  gpt2_model [VRef 10; VRef 11; VRef 12; VRef 13; VRef 14].

Definition gpt2_store4 : heap := gpt2_model [VRef 10; VRef 11; VRef 12; VRef 13].

Definition gpt2_store2 : heap := gpt2_model [VRef 10; VRef 11].

(** An OPT style model without a final layer norm. *)
Definition opt_store : heap :=
  list_to_map
    [(1%positive, {| cls := OtherClass "OPTForCausalLM";
                     attrs := {[ "base_model" := VRef 2 ]}; items := None |});
     (2%positive, {| cls := OPTModel;
                     attrs := {[ "decoder" := VRef 3 ]}; items := None |});
     (3%positive, {| cls := OtherClass "OPTDecoder";
                     attrs := <[ "final_layer_norm" := VNone ]> {[ "layers" := VRef 5 ]};
                     items := None |});
     (5%positive, {| cls := ModuleList; attrs := ∅; items := Some [VRef 10] |});
     (10%positive, block)].

(** An object whose attribute [xs] is a built-in list of one element. *)
Definition list_store : heap :=
  list_to_map
    [(1%positive, {| cls := OtherClass "Holder";
                     attrs := {[ "xs" := VRef 2 ]}; items := None |});
     (2%positive, {| cls := BuiltinList; attrs := ∅; items := Some [VRef 10] |});
     (10%positive, block); (11%positive, block)].

(** The same with a subscriptable instance of a user class in place of the
    built-in list. *)
Definition box_store : heap :=
  list_to_map
    [(1%positive, {| cls := OtherClass "Holder";
                     attrs := {[ "xs" := VRef 2 ]}; items := None |});
     (2%positive, {| cls := OtherClass "Box"; attrs := ∅; items := Some [VRef 10] |});
     (10%positive, block); (11%positive, block)].

(** An object whose attribute [a] refers back to the object itself. *)
Definition cyclic_store : heap :=
  {[ 1%positive := {| cls := OtherClass "Node";
                      attrs := {[ "a" := VRef 1 ]}; items := None |} ]}.

(** ** Reading never writes *)

Lemma py_getattr_ro o k h : (py_getattr o k h).1 = h.
Proof.
  unfold py_getattr. destruct o as [|l]; [done|].
  simpl. destruct (has_dict _); [|done]. by destruct (attrs _ !! k).
Qed.

Lemma py_iter_ro o h : (py_iter o h).1 = h.
Proof.
  unfold py_iter. destruct o as [|l]; [done|]. by destruct (items _).
Qed.

Lemma py_getitem_ro o i h : (py_getitem o i h).1 = h.
Proof.
  unfold py_getitem, bind. pose proof (py_iter_ro o h) as Hro.
  destruct (py_iter o h) as [h' [xs|e]]; simpl in *; subst; [|done].
  by destruct (seq_at xs i).
Qed.

Lemma get_value_for_key_eq o key h :
  get_value_for_key o key h =
  if isdigit key
  then match int key with
       | Ok i => py_getitem o i h
       | Raise e => (h, Raise e)
       end
  else py_getattr o key h.
Proof.
  unfold get_value_for_key, bind, lift.
  destruct (isdigit key); [|done]. by destruct (int key).
Qed.

Lemma set_value_for_key_eq o key v h :
  set_value_for_key_ o key v h =
  if isdigit key
  then match int key with
       | Ok i => py_setitem o i v h
       | Raise e => (h, Raise e)
       end
  else py_setattr o key v h.
Proof.
  unfold set_value_for_key_, bind, lift.
  destruct (isdigit key); [|done]. by destruct (int key).
Qed.

Lemma get_value_for_key_ro o key h : (get_value_for_key o key h).1 = h.
Proof.
  rewrite get_value_for_key_eq.
  destruct (isdigit key); [|apply py_getattr_ro].
  destruct (int key); [apply py_getitem_ro | done].
Qed.

Lemma walk_ro keys : ∀ model h, (walk model keys h).1 = h.
Proof.
  induction keys as [|key keys IH]; intros model h; [done|].
  simpl. unfold bind. pose proof (get_value_for_key_ro model key h) as Hro.
  destruct (get_value_for_key model key h) as [h' [v|e]]; simpl in *; subst; [|done].
  apply IH.
Qed.

Lemma walk_eq keys model h : walk model keys h = (h, (walk model keys h).2).
Proof. rewrite <- (walk_ro keys model h) at 2. by destruct (walk model keys h). Qed.

Lemma get_key_path_ro model key_path h : (get_key_path model key_path h).1 = h.
Proof. apply walk_ro. Qed.

Lemma walk_app keys1 keys2 : ∀ model h,
  walk model (keys1 ++ keys2) h =
  match walk model keys1 h with
  | (h', Ok o) => walk o keys2 h'
  | (h', Raise e) => (h', Raise e)
  end.
Proof.
  induction keys1 as [|key keys1 IH]; intros model h; [done|].
  simpl. unfold bind.
  destruct (get_value_for_key model key h) as [h' [v|e]]; [apply IH | done].
Qed.

(** ** Writing one attribute leaves the rest of the store readable as before *)

Lemma deref_store_attr l l' k v h :
  deref (store_attr l k v h) l' =
  if decide (l = l')
  then {| cls := cls (deref h l); attrs := <[k := v]> (attrs (deref h l));
          items := items (deref h l) |}
  else deref h l'.
Proof.
  unfold store_attr, deref at 1. case_decide as Heq.
  - subst. by rewrite lookup_insert_eq.
  - by rewrite lookup_insert_ne.
Qed.

Lemma cls_store_attr l l' k v h :
  cls (deref (store_attr l k v h) l') = cls (deref h l').
Proof. rewrite deref_store_attr. case_decide; by subst. Qed.

Lemma items_store_attr l l' k v h :
  items (deref (store_attr l k v h) l') = items (deref h l').
Proof. rewrite deref_store_attr. case_decide; by subst. Qed.

Lemma attrs_store_attr_ne l l' k key v h :
  key ≠ k → attrs (deref (store_attr l k v h) l') !! key = attrs (deref h l') !! key.
Proof.
  intros Hne. rewrite deref_store_attr. case_decide; subst; [|done].
  simpl. by rewrite lookup_insert_ne.
Qed.

Lemma attrs_store_attr_eq l k v h :
  attrs (deref (store_attr l k v h) l) !! k = Some v.
Proof. rewrite deref_store_attr, decide_True by done. simpl. apply lookup_insert_eq. Qed.

Lemma py_iter_store_attr o l k v h :
  py_iter o (store_attr l k v h) = (store_attr l k v h, (py_iter o h).2).
Proof.
  unfold py_iter. destruct o as [|lo]; [done|].
  rewrite items_store_attr. by destruct (items _).
Qed.

Lemma get_value_for_key_store_attr o key l k v h :
  key ≠ k →
  get_value_for_key o key (store_attr l k v h) =
  (store_attr l k v h, (get_value_for_key o key h).2).
Proof.
  intros Hne. rewrite !get_value_for_key_eq. destruct (isdigit key).
  - destruct (int key) as [i|e]; [|done].
    unfold py_getitem, bind. rewrite py_iter_store_attr.
    pose proof (py_iter_ro o h) as Hro.
    destruct (py_iter o h) as [h' [xs|e]]; simpl in *; subst; [|done].
    by destruct (seq_at xs _).
  - unfold py_getattr. destruct o as [|lo]; [done|]. simpl.
    rewrite cls_store_attr, attrs_store_attr_ne by done.
    destruct (has_dict _); [|done]. by destruct (attrs _ !! key).
Qed.

Lemma walk_store_attr keys l k v : ∀ model h,
  k ∉ keys →
  walk model keys (store_attr l k v h) =
  (store_attr l k v h, (walk model keys h).2).
Proof.
  induction keys as [|key keys IH]; intros model h Hk; [done|].
  apply not_elem_of_cons in Hk as [Hne Hk]. simpl. unfold bind.
  rewrite get_value_for_key_store_attr by done.
  pose proof (get_value_for_key_ro model key h) as Hro.
  destruct (get_value_for_key model key h) as [h' [o|e]]; simpl in *; subst; [|done].
  by apply IH.
Qed.

(** ** A successful read is unaffected by objects added to the store *)

Lemma deref_allocated h l ob : h !! l = Some ob → deref h l = ob.
Proof. unfold deref. by intros ->. Qed.

Lemma deref_weaken h h' l ob : h ⊆ h' → h !! l = Some ob → deref h' l = ob.
Proof. intros Hsub Hl. apply deref_allocated. by eapply lookup_weaken. Qed.

Lemma py_getattr_allocated l k h v :
  (py_getattr (VRef l) k h).2 = Ok v → is_Some (h !! l).
Proof.
  unfold py_getattr, deref. destruct (h !! l) as [ob|]; [by eauto|].
  simpl. by rewrite lookup_empty.
Qed.

Lemma py_iter_allocated l h xs :
  (py_iter (VRef l) h).2 = Ok xs → is_Some (h !! l).
Proof. unfold py_iter, deref. by destruct (h !! l) as [ob|]; [eauto|]. Qed.

Lemma py_iter_weaken o h h' xs :
  h ⊆ h' → (py_iter o h).2 = Ok xs → py_iter o h' = (h', Ok xs).
Proof.
  intros Hsub Hok. destruct o as [|l]; [done|].
  destruct (py_iter_allocated _ _ _ Hok) as [ob Hob].
  revert Hok. unfold py_iter.
  rewrite (deref_allocated _ _ _ Hob), (deref_weaken _ _ _ _ Hsub Hob).
  destruct (items ob); [by intros [= ->] | done].
Qed.

Lemma py_getattr_weaken o k h h' v :
  h ⊆ h' → (py_getattr o k h).2 = Ok v → py_getattr o k h' = (h', Ok v).
Proof.
  intros Hsub Hok. destruct o as [|l]; [done|].
  destruct (py_getattr_allocated _ _ _ _ Hok) as [ob Hob].
  revert Hok. unfold py_getattr.
  rewrite (deref_allocated _ _ _ Hob), (deref_weaken _ _ _ _ Hsub Hob).
  destruct (has_dict _); [|done]. destruct (attrs ob !! k); [by intros [= ->] | done].
Qed.

Lemma get_value_for_key_weaken o key h h' v :
  h ⊆ h' → (get_value_for_key o key h).2 = Ok v →
  get_value_for_key o key h' = (h', Ok v).
Proof.
  intros Hsub. rewrite !get_value_for_key_eq. destruct (isdigit key).
  - destruct (int key) as [i|e]; [|done].
    unfold py_getitem, bind. intros Hok.
    pose proof (py_iter_ro o h) as Hro.
    destruct (py_iter o h) as [h1 [xs|e]] eqn:Hit; simpl in *; subst; [|done].
    rewrite (py_iter_weaken o h h' xs Hsub) by (rewrite Hit; reflexivity).
    by destruct (seq_at xs _); simplify_eq/=.
  - by apply py_getattr_weaken.
Qed.

Lemma walk_weaken keys h h' : ∀ model v,
  h ⊆ h' → (walk model keys h).2 = Ok v → walk model keys h' = (h', Ok v).
Proof.
  induction keys as [|key keys IH]; intros model v Hsub; simpl.
  - by intros [= ->].
  - unfold bind. intros Hok.
    pose proof (get_value_for_key_ro model key h) as Hro.
    destruct (get_value_for_key model key h) as [h1 [o|e]] eqn:Hget;
      simpl in *; subst; [|done].
    rewrite (get_value_for_key_weaken model key h h' o Hsub) by (rewrite Hget; reflexivity).
    by apply IH.
Qed.

(** ** Key paths: the last segment and what comes before it *)

Lemma norm_index_last (n : nat) : norm_index (S n) (-1) = Some n.
Proof.
  unfold norm_index. rewrite decide_True by lia. rewrite decide_True by lia.
  f_equal. lia.
Qed.

Lemma all_but_last_snoc {A} (prefix : list A) k : all_but_last (prefix ++ [k]) = prefix.
Proof.
  unfold all_but_last. rewrite length_app. simpl.
  replace (length prefix + 1 - 1)%nat with (length prefix) by lia.
  by rewrite take_app_length.
Qed.

Lemma last_item_snoc {A} (prefix : list A) k h : last_item (prefix ++ [k]) h = (h, Ok k).
Proof.
  unfold last_item, seq_at. rewrite length_app. simpl.
  replace (length prefix + 1)%nat with (S (length prefix)) by lia.
  rewrite norm_index_last. by rewrite list_lookup_middle.
Qed.

Lemma split_dot_snoc s : ∃ prefix k, split_dot s = (prefix ++ [k])%list.
Proof.
  unfold split_dot. destruct (split_dot_aux s) as [seg rest].
  destruct (seg :: rest) as [|x xs] eqn:Heq using rev_ind; [done|]. eauto.
Qed.

Lemma get_key_path_snoc model key_path prefix k h :
  split_dot key_path = (prefix ++ [k])%list →
  get_key_path model key_path h =
  match walk model prefix h with
  | (h', Ok o) => get_value_for_key o k h'
  | (h', Raise e) => (h', Raise e)
  end.
Proof.
  intros Hsplit. unfold get_key_path. rewrite Hsplit, walk_app.
  destruct (walk model prefix h) as [h' [o|e]]; [|done].
  simpl. unfold bind, ret. by destruct (get_value_for_key o k h') as [h'' [v|e]].
Qed.

Lemma set_key_path_snoc model key_path prefix k v h :
  split_dot key_path = (prefix ++ [k])%list →
  set_key_path_ model key_path v h =
  match walk model prefix h with
  | (h', Ok o) => py_setattr o k v h'
  | (h', Raise e) => (h', Raise e)
  end.
Proof.
  intros Hsplit. unfold set_key_path_. rewrite Hsplit, all_but_last_snoc.
  unfold bind. destruct (walk model prefix h) as [h' [o|e]]; [|done].
  by rewrite last_item_snoc.
Qed.

Lemma set_key_path_documented_snoc model key_path prefix k v h :
  split_dot key_path = (prefix ++ [k])%list →
  set_key_path_documented model key_path v h =
  match walk model prefix h with
  | (h', Ok o) => set_value_for_key_ o k v h'
  | (h', Raise e) => (h', Raise e)
  end.
Proof.
  intros Hsplit. unfold set_key_path_documented. rewrite Hsplit, all_but_last_snoc.
  unfold bind. destruct (walk model prefix h) as [h' [o|e]]; [|done].
  by rewrite last_item_snoc.
Qed.

Lemma py_getattr_has_dict o k h v :
  (py_getattr o k h).2 = Ok v →
  ∃ l, o = VRef l ∧ has_dict (cls (deref h l)) = true ∧ attrs (deref h l) !! k = Some v.
Proof.
  unfold py_getattr. destruct o as [|l]; [done|]. simpl.
  destruct (has_dict _) eqn:Hd; [|done].
  destruct (attrs _ !! k) as [w|] eqn:Hk; [|done]. intros [= ->]. eauto.
Qed.

(** Where a name can be read, it can be written. *)
Lemma get_key_path_restorable model key_path prefix k h v :
  split_dot key_path = (prefix ++ [k])%list → isdigit k = false →
  (get_key_path model key_path h).2 = Ok v →
  restorable model key_path h.
Proof.
  intros Hsplit Hk. rewrite (get_key_path_snoc _ _ _ _ _ Hsplit).
  unfold restorable. rewrite Hsplit, all_but_last_snoc.
  rewrite (walk_eq prefix model h).
  destruct (walk model prefix h).2 as [o|e]; [|done].
  unfold get_value_for_key. rewrite Hk. intros Hget.
  apply py_getattr_has_dict in Hget as (l & -> & Hd & _). eauto.
Qed.

(** A successful write at a plain path: the holder's attribute is set, the
    path then resolves to the written value, and can be written again. *)
Lemma set_key_path_plain model key_path prefix k v l h :
  split_dot key_path = (prefix ++ [k])%list → k ∉ prefix → isdigit k = false →
  walk model prefix h = (h, Ok (VRef l)) → has_dict (cls (deref h l)) = true →
  set_key_path_ model key_path v h = (store_attr l k v h, Ok tt)
  ∧ get_key_path model key_path (store_attr l k v h) = (store_attr l k v h, Ok v)
  ∧ restorable model key_path (store_attr l k v h).
Proof.
  intros Hsplit Hfresh Hk Hwalk Hd.
  assert (walk model prefix (store_attr l k v h) = (store_attr l k v h, Ok (VRef l)))
    as Hwalk' by (rewrite walk_store_attr, Hwalk; done).
  split_and!.
  - rewrite (set_key_path_snoc _ _ _ _ _ _ Hsplit), Hwalk. simpl. by rewrite Hd.
  - rewrite (get_key_path_snoc _ _ _ _ _ Hsplit), Hwalk'.
    unfold get_value_for_key. rewrite Hk. unfold py_getattr.
    by rewrite cls_store_attr, Hd, attrs_store_attr_eq.
  - exists l. rewrite Hsplit, all_but_last_snoc. by rewrite cls_store_attr.
Qed.

Lemma restorable_set model key_path prefix k v h :
  split_dot key_path = (prefix ++ [k])%list → (k ∉ prefix) → isdigit k = false →
  restorable model key_path h →
  ∃ h', set_key_path_ model key_path v h = (h', Ok tt)
        ∧ get_key_path model key_path h' = (h', Ok v)
        ∧ restorable model key_path h'
        ∧ (∀ l, cls (deref h' l) = cls (deref h l) ∧ items (deref h' l) = items (deref h l)).
Proof.
  intros Hsplit Hfresh Hk (l & Hwalk & Hd).
  rewrite Hsplit, all_but_last_snoc in Hwalk.
  destruct (set_key_path_plain model key_path prefix k v l h) as (Hs & Hg & Hr); try done.
  exists (store_attr l k v h). split_and!; try done.
  intros l'. by rewrite cls_store_attr, items_store_attr.
Qed.

(** ** Locating the layer list and the final norm *)

Lemma py_getattr_handle model h :
  py_getattr model "base_model" h =
  (h, match handle model h with Some b => Ok b | None => Raise AttributeError end).
Proof.
  unfold py_getattr, handle. destruct model as [|l]; [done|]. simpl.
  destruct (has_dict _); [|done]. by destruct (attrs _ !! "base_model").
Qed.

Lemma py_hasattr_handle model h :
  py_hasattr model "base_model" h =
  (h, Ok (match handle model h with Some _ => true | None => false end)).
Proof. unfold py_hasattr. rewrite py_getattr_handle. by destruct (handle model h). Qed.

Lemma split_join_layers (ks : list string) :
  ks ∈ [["decoder"; "layers"]; ["layers"]; ["h"]] →
  split_dot (join_dot ("base_model" :: ks)) = "base_model" :: ks.
Proof. intros Hks. repeat (apply elem_of_cons in Hks as [->|Hks]; [done|]). inversion Hks. Qed.

Lemma layers_keys_cases c ks :
  layers_keys c = Some ks → ks ∈ [["decoder"; "layers"]; ["layers"]; ["h"]].
Proof. destruct c; intros [= <-]; set_solver. Qed.

(** The locator as a table lookup followed by one walk. *)
Lemma get_transformer_layers_eq model h :
  get_transformer_layers model h =
  match handle model h with
  | None => (h, Raise ValueError)
  | Some b =>
      match class_of b h ≫= layers_keys with
      | None => (h, Raise NotImplementedError)
      | Some ks =>
          (h, match (walk model ("base_model" :: ks) h).2 with
              | Ok layer_list => Ok (join_dot ("base_model" :: ks), layer_list)
              | Raise e => Raise e
              end)
      end
  end.
Proof.
  unfold get_transformer_layers, bind.
  rewrite py_hasattr_handle.
  destruct (handle model h) as [b|] eqn:Hb; [|done]. cbn [negb].
  rewrite py_getattr_handle, Hb.
  assert (∀ ks, ks ∈ [["decoder"; "layers"]; ["layers"]; ["h"]] →
    (let '(h', r) := get_key_path model (join_dot ("base_model" :: ks)) h in
     match r with
     | Ok a => ret (join_dot ("base_model" :: ks), a) h'
     | Raise e => (h', Raise e)
     end) =
    (h, match (walk model ("base_model" :: ks) h).2 with
        | Ok layer_list => Ok (join_dot ("base_model" :: ks), layer_list)
        | Raise e => Raise e
        end)) as Hpath.
  { intros ks Hks. unfold get_key_path. rewrite (split_join_layers ks Hks).
    rewrite (walk_eq ("base_model" :: ks) model h).
    by destruct (walk model ("base_model" :: ks) h).2. }
  destruct b as [|lb]; [done|].
  cbn [class_of mbind option_bind py_isinstance py_isinstance_any]. cbv beta.
  destruct (cls (deref h lb)) eqn:Hc; cbn [layers_keys];
  decide_classes Hc; try done.
  all: (apply (Hpath ["decoder"; "layers"]) || apply (Hpath ["layers"])
     || apply (Hpath ["h"])); set_solver.
Qed.

Lemma get_transformer_layers_ro model h : (get_transformer_layers model h).1 = h.
Proof.
  rewrite get_transformer_layers_eq.
  destruct (handle model h) as [b|]; [|done]. by destruct (_ ≫= _).
Qed.

(** A located layer list sits at a plain path that resolves to it. *)
Lemma get_transformer_layers_ok model h list_path layer_list :
  (get_transformer_layers model h).2 = Ok (list_path, layer_list) →
  ∃ prefix k,
    split_dot list_path = (prefix ++ [k])%list ∧ (k ∉ prefix) ∧ isdigit k = false
    ∧ get_key_path model list_path h = (h, Ok layer_list).
Proof.
  rewrite get_transformer_layers_eq.
  destruct (handle model h) as [b|]; [|done].
  destruct (class_of b h ≫= layers_keys) as [ks|] eqn:Hks; [|done]. cbn [snd].
  destruct (walk model ("base_model" :: ks) h).2 as [ll|e] eqn:Hwalk; [|done].
  intros [= <- <-].
  assert (ks ∈ [["decoder"; "layers"]; ["layers"]; ["h"]]) as Hin.
  { destruct (class_of b h) as [c|]; [|done]. by eapply layers_keys_cases. }
  assert (get_key_path model (join_dot ("base_model" :: ks)) h = (h, Ok ll)) as Hget.
  { unfold get_key_path. rewrite (split_join_layers ks Hin).
    by rewrite (walk_eq ("base_model" :: ks) model h), Hwalk. }
  repeat (apply elem_of_cons in Hin as [->|Hin]).
  - exists ["base_model"; "decoder"], "layers". split_and!; [done| |done|done].
    not_among.
  - exists ["base_model"], "layers". split_and!; [done| |done|done]. not_among.
  - exists ["base_model"], "h". split_and!; [done| |done|done]. not_among.
  - inversion Hin.
Qed.

(** ** Entering and leaving a scope *)

Lemma set_key_path_inv model key_path prefix k v h h1 :
  split_dot key_path = (prefix ++ [k])%list →
  set_key_path_ model key_path v h = (h1, Ok tt) →
  ∃ l, walk model prefix h = (h, Ok (VRef l))
       ∧ has_dict (cls (deref h l)) = true ∧ h1 = store_attr l k v h.
Proof.
  intros Hsplit. rewrite (set_key_path_snoc _ _ _ _ _ _ Hsplit).
  rewrite (walk_eq prefix model h).
  destruct (walk model prefix h).2 as [[|l]|e]; [done| |done].
  unfold py_setattr. destruct (has_dict _) eqn:Hd; [|done].
  intros [= <-]. eauto.
Qed.

(** Leaving a scope whose restoring write can be carried out: the path
    resolves to the value put back and the outcome of the body stands. *)
Lemma scope_exit_restores {A} model key_path prefix k old (body : Py A) h1 :
  split_dot key_path = (prefix ++ [k])%list → (k ∉ prefix) → isdigit k = false →
  restorable model key_path (body h1).1 →
  ∃ h3, try_finally body (set_key_path_ model key_path old) h1 = (h3, (body h1).2)
        ∧ get_key_path model key_path h3 = (h3, Ok old).
Proof.
  intros Hsplit Hfresh Hk Hres. unfold try_finally.
  destruct (body h1) as [h2 r]. simpl in *.
  destruct (restorable_set model key_path prefix k old h2) as (h3 & Hs & Hg & _);
    try done.
  exists h3. by rewrite Hs.
Qed.

(** After a successful write at a plain path the write can be repeated. *)
Lemma set_key_path_restorable model key_path prefix k v h h1 :
  split_dot key_path = (prefix ++ [k])%list → (k ∉ prefix) → isdigit k = false →
  set_key_path_ model key_path v h = (h1, Ok tt) →
  restorable model key_path h1 ∧ get_key_path model key_path h1 = (h1, Ok v).
Proof.
  intros Hsplit Hfresh Hk Hset.
  destruct (set_key_path_inv _ _ _ _ _ _ _ Hsplit Hset) as (l & Hwalk & Hd & ->).
  destruct (set_key_path_plain model key_path prefix k v l h) as (_ & Hg & Hr); done.
Qed.

Lemma install_built_inv model build h h1 st y :
  install_built model build h = (h1, Ok (st, y)) →
  ∃ list_path layer_list new_list ha,
    st = (list_path, layer_list) ∧ y = model
    ∧ get_transformer_layers model h = (h, Ok (list_path, layer_list))
    ∧ build layer_list h = (ha, Ok new_list)
    ∧ set_key_path_ model list_path new_list ha = (h1, Ok tt).
Proof.
  unfold install_built, bind. pose proof (get_transformer_layers_ro model h) as Hro.
  destruct (get_transformer_layers model h) as [h' [[lp ll]|e]]; simpl in *; subst;
    [|done].
  destruct (build ll h) as [ha [new|e]] eqn:Hb; [|done].
  destruct (set_key_path_ model lp new ha) as [h2 [[]|e]] eqn:Hs; [|done].
  intros [= <- <- <-]. by exists lp, ll, new, ha.
Qed.

Lemma install_built_raise model build h list_path layer_list ha e :
  (get_transformer_layers model h).2 = Ok (list_path, layer_list) →
  build layer_list h = (ha, Raise e) →
  install_built model build h = (ha, Raise e).
Proof.
  intros Hloc Hb. unfold install_built, bind.
  pose proof (get_transformer_layers_ro model h) as Hro.
  destruct (get_transformer_layers model h) as [h' [[lp ll]|e']]; simpl in *;
    simplify_eq. by rewrite Hb.
Qed.

(** Installing a list built without touching the objects already in the
    store succeeds; inside the scope the path resolves to the new list. *)
Lemma install_built_ok model build h list_path layer_list ha new_list :
  (get_transformer_layers model h).2 = Ok (list_path, layer_list) →
  build layer_list h = (ha, Ok new_list) → h ⊆ ha →
  ∃ h1, install_built model build h = (h1, Ok ((list_path, layer_list), model))
        ∧ get_key_path model list_path h1 = (h1, Ok new_list)
        ∧ restorable model list_path h1
        ∧ (∀ l, cls (deref h1 l) = cls (deref ha l)
                ∧ items (deref h1 l) = items (deref ha l)).
Proof.
  intros Hloc Hb Hsub.
  destruct (get_transformer_layers_ok _ _ _ _ Hloc) as (prefix & k & Hsplit & Hfresh & Hk & Hget).
  assert (get_key_path model list_path ha = (ha, Ok layer_list)) as Hget'.
  { apply (walk_weaken _ h); [done|]. unfold get_key_path in Hget. by rewrite Hget. }
  assert (restorable model list_path ha) as Hres.
  { eapply get_key_path_restorable; [done..|]. by rewrite Hget'. }
  destruct (restorable_set model list_path prefix k new_list ha)
    as (h1 & Hs & Hg & Hr & Hsame); try done.
  exists h1. split_and!; try done.
  unfold install_built, bind.
  pose proof (get_transformer_layers_ro model h) as Hro.
  destruct (get_transformer_layers model h) as [h' [[lp ll]|e']]; simpl in *;
    simplify_eq. by rewrite Hb, Hs.
Qed.

Lemma delete_layers_enter model indices h :
  cm_enter (delete_layers model indices) h =
  install_built model (build_deleted indices) h.
Proof.
  unfold install_built, build_deleted. simpl. unfold bind, ret.
  destruct (get_transformer_layers model h) as [h1 [[lp ll]|e]]; [|done].
  destruct (py_iter ll h1) as [h2 [layers|e]]; [|done].
  destruct (new_ModuleList layers h2) as [h3 [ml|e]]; [|done].
  by destruct (for_each _ _ h3) as [h4 [[]|e]].
Qed.

Lemma permute_layers_enter model indices h :
  cm_enter (permute_layers model indices) h =
  install_built model (build_permuted indices) h.
Proof.
  unfold install_built, build_permuted. simpl. unfold bind, ret.
  destruct (get_transformer_layers model h) as [h1 [[lp ll]|e]]; [|done].
  by destruct (comprehension _ _ h1) as [h2 [permuted|e]].
Qed.

Lemma replace_layers_enter model indices replacements h :
  cm_enter (replace_layers model indices replacements) h =
  install_built model (build_replaced indices replacements) h.
Proof.
  unfold install_built, build_replaced. simpl. unfold bind, ret.
  destruct (get_transformer_layers model h) as [h1 [[lp ll]|e]]; [|done].
  destruct (py_iter ll h1) as [h2 [layers|e]]; [|done].
  destruct (new_ModuleList layers h2) as [h3 [ml|e]]; [|done].
  by destruct (for_each _ _ h3) as [h4 [[]|e]].
Qed.

Lemma cm_exit_scoped model op key_path old :
  cm_exit (scoped model op) (key_path, old) = set_key_path_ model key_path old.
Proof. by destruct op. Qed.

Lemma scoped_layers_enter model op h :
  (∀ key_path value, op ≠ AssignKeyPath key_path value) →
  ∃ build, cm_enter (scoped model op) h = install_built model build h.
Proof.
  intros Hop. destruct op as [kp v|indices|indices|indices replacements].
  - by destruct (Hop kp v).
  - eexists. apply delete_layers_enter.
  - eexists. apply permute_layers_enter.
  - eexists. apply replace_layers_enter.
Qed.

(** What a successful entry establishes, for each of the four operations. *)
Lemma scoped_enter_inv model op h h1 key_path old y :
  cm_enter (scoped model op) h = (h1, Ok ((key_path, old), y)) →
  (∀ kp value, op = AssignKeyPath kp value → plain_path kp) →
  plain_path key_path ∧ y = model
  ∧ get_key_path model key_path h = (h, Ok old)
  ∧ restorable model key_path h1.
Proof.
  intros Henter Hplain.
  assert ((∃ kp value, op = AssignKeyPath kp value)
          ∨ (∀ kp value, op ≠ AssignKeyPath kp value)) as [(kp & v & ->)|Hop]
    by (destruct op; eauto).
  - destruct (Hplain kp v eq_refl) as (prefix & k & Hsplit & Hfresh & Hk).
    simpl in Henter. unfold bind, ret in Henter.
    pose proof (get_key_path_ro model kp h) as Hro.
    destruct (get_key_path model kp h) as [h' [old'|e]] eqn:Hget; simpl in *; subst;
      [|done].
    destruct (set_key_path_ model kp v h) as [h2 [[]|e]] eqn:Hset; [|done].
    injection Henter as <- <- <- <-.
    split_and!; [by exists prefix, k|done|done|].
    by eapply set_key_path_restorable.
  - destruct (scoped_layers_enter model op h Hop) as [build Hb].
    rewrite Hb in Henter.
    apply install_built_inv in Henter
      as (lp & ll & new & ha & [= <- <-] & -> & Hloc & _ & Hset).
    destruct (get_transformer_layers_ok model h key_path old)
      as (prefix & k & Hsplit & Hfresh & Hk & Hget); [by rewrite Hloc|].
    split_and!; [by exists prefix, k|done|done|].
    by eapply set_key_path_restorable.
Qed.

(** Where the exit does restore the reference.  For each of the four
    scoped operations - for [assign_key_path] when the last segment of the
    path is a name that occurs nowhere earlier in the path - and for every
    body that leaves the restoring write possible, the [with] statement
    ends with the outcome of the body, be it a result or an exception, and
    the mutated path then resolves to the very reference it resolved to
    before entry. *)
Lemma scoped_exit_restores_reference {A} (model : val) (op : scoped_op)
    (body : val → Py A) h h1 key_path old y :
  cm_enter (scoped model op) h = (h1, Ok ((key_path, old), y)) →
  (∀ kp value, op = AssignKeyPath kp value → plain_path kp) →
  (restorable model key_path h1 → restorable model key_path (body y h1).1) →
  get_key_path model key_path h = (h, Ok old)
  ∧ ∃ h3, with_ (scoped model op) body h = (h3, (body y h1).2)
          ∧ get_key_path model key_path h3 = (h3, Ok old).
Proof.
  intros Henter Hplain Hbody.
  destruct (scoped_enter_inv _ _ _ _ _ _ _ Henter Hplain)
    as ((prefix & k & Hsplit & Hfresh & Hk) & -> & Hget & Hres).
  split; [done|].
  destruct (scope_exit_restores model key_path prefix k old (body model) h1)
    as (h3 & Hfin & Hget3); [done..|by apply Hbody|].
  exists h3. split; [|done].
  unfold with_, bind. by rewrite Henter, cm_exit_scoped.
Qed.

(** C2 at a failing input.  On an object whose attribute [a] refers to the
    object itself the path [a.a] resolves to that object.  The scope of
    [assign_key_path] at this path with value [None] is entered, its body
    does nothing, and its exit walks the path through the [None] it
    installed: the [with] statement ends with the [AttributeError] of the
    restoring write, the attribute still holds [None], and the path no
    longer resolves, let alone to the reference it resolved to before
    entry. *)
Theorem assign_key_path_exit_misses_reference :
  get_key_path (VRef 1) "a.a" cyclic_store = (cyclic_store, Ok (VRef 1))
  ∧ ∃ h1 h3,
      cm_enter (assign_key_path (VRef 1) "a.a" VNone) cyclic_store
      = (h1, Ok (("a.a", VRef 1), VRef 1))
      ∧ with_ (assign_key_path (VRef 1) "a.a" VNone) (λ _, ret tt) cyclic_store
        = (h3, Raise AttributeError)
      ∧ attrs (deref h3 1) !! "a" = Some VNone
      ∧ get_key_path (VRef 1) "a.a" h3 = (h3, Raise AttributeError).
Proof.
  split; [by vm_compute|]. do 2 eexists. split_and!; by vm_compute.
Qed.

(** So the scope of [assign_key_path] does not restore the reference
    whatever the path is. *)
Lemma assign_key_path_cyclic_not_restored :
  ¬ restores_reference (VRef 1) (AssignKeyPath "a.a" VNone).
Proof.
  intros Hclaim.
  destruct (Hclaim (λ _, ret tt) cyclic_store
              (store_attr 1 "a" VNone cyclic_store) "a.a" (VRef 1) (VRef 1))
    as (h3 & Hwith & _).
  - vm_compute. reflexivity.
  - vm_compute in Hwith. discriminate Hwith.
Qed.

(** ** Numeric and named segments *)








(** [int] fails with [ValueError] only. *)
Lemma int_raises key e : int key = Raise e → e = ValueError.
Proof.
  unfold int. destruct (code_points key) as [[|c cs]|]; [by intros [= <-]| |by intros [= <-]].
  destruct (int_acc 0 (c :: cs)); [done | by intros [= <-]].
Qed.







(** The superscript two is a digit and no decimal digit: [str.isdigit]
    holds of it and [int] rejects it. *)
Lemma superscript_two_segment :
  code_points "²" = Some [178%N] ∧ isdigit "²" = true ∧ int "²" = Raise ValueError.
Proof.
  assert (code_points "²" = Some [178%N]) as Hcs by reflexivity.
  split; [done|]. unfold isdigit, int. rewrite Hcs.
  cbn [forallb int_acc]. unfold is_digit, char_kind.
  change (178 <? 128)%N with false. cbv iota. by rewrite superscript_two.
Qed.

(** The Arabic-Indic digit three is a decimal digit: [int] reads it as 3. *)
Lemma arabic_indic_three_segment :
  code_points "٣" = Some [1635%N] ∧ isdigit "٣" = true ∧ int "٣" = Ok 3.
Proof.
  assert (code_points "٣" = Some [1635%N]) as Hcs by reflexivity.
  split; [done|]. unfold isdigit, int. rewrite Hcs.
  cbn [forallb int_acc]. unfold is_digit, char_kind.
  change (1635 <? 128)%N with false. cbv iota.
  by rewrite arabic_indic_digit_three.
Qed.

(** The two characters in a path over the layer list of the sample
    model. *)
Example get_value_for_key_superscript_two :
  get_value_for_key (VRef 3) "²" gpt2_store = (gpt2_store, Raise ValueError).
Proof.
  rewrite get_value_for_key_eq.
  by destruct superscript_two_segment as (_ & -> & ->).
Qed.

Example get_value_for_key_arabic_indic_three :
  get_value_for_key (VRef 3) "٣" gpt2_store = (gpt2_store, Ok (VRef 13)).
Proof.
  rewrite get_value_for_key_eq.
  by destruct arabic_indic_three_segment as (_ & -> & ->).
Qed.


(** Not every segment is an index or a name according to its being
    composed of decimal digits: the superscript two is no decimal digit,
    and it is not read as a name. *)
Lemma superscript_two_breaks_rule : ¬ digits_index_others_name.
Proof.
  intros Hrule. destruct (Hrule VNone "²" ∅) as [_ Hname].
  destruct superscript_two_segment as (Hcs & Hd & Hint).
  rewrite get_value_for_key_eq, Hd, Hint in Hname.
  assert (∀ ds, ¬ decimal_segment "²" ds) as Hnot.
  { intros ds (cs & Hcs' & _ & Hds). rewrite Hcs in Hcs'. injection Hcs' as <-.
    inversion Hds as [|? d ? ? Hc _]; subst.
    revert Hc. unfold char_kind. change (178 <? 128)%N with false. cbv iota.
    by rewrite superscript_two. }
  specialize (Hname Hnot). discriminate Hname.
Qed.

(** ** The setter and its documented behaviour *)

(** On a named last segment the setter does what its documentation says. *)
Lemma set_key_path_named model key_path prefix k v h :
  split_dot key_path = (prefix ++ [k])%list → isdigit k = false →
  set_key_path_ model key_path v h = set_key_path_documented model key_path v h.
Proof.
  intros Hsplit Hk.
  rewrite (set_key_path_snoc _ _ _ _ _ _ Hsplit),
    (set_key_path_documented_snoc _ _ _ _ _ _ Hsplit).
  unfold set_value_for_key_. by rewrite Hk.
Qed.

Lemma object_eta ob : {| cls := cls ob; attrs := attrs ob; items := items ob |} = ob.
Proof. by destruct ob. Qed.

Lemma store_attr_same l k v h :
  has_dict (cls (deref h l)) = true → attrs (deref h l) !! k = Some v →
  store_attr l k v h = h.
Proof.
  intros Hd Hk. unfold store_attr. rewrite (insert_id (attrs (deref h l))) by done.
  rewrite object_eta. apply insert_id. unfold deref in *.
  destruct (h !! l) as [ob|]; [done|]. simpl in Hk. by rewrite lookup_empty in Hk.
Qed.

(** Writing back what a path resolves to changes nothing when the last
    segment is a name. *)
Lemma round_trip_named model key_path prefix k v h :
  split_dot key_path = (prefix ++ [k])%list → isdigit k = false →
  (get_key_path model key_path h).2 = Ok v →
  set_key_path_ model key_path v h = (h, Ok tt).
Proof.
  intros Hsplit Hk. rewrite (get_key_path_snoc _ _ _ _ _ Hsplit),
    (set_key_path_snoc _ _ _ _ _ _ Hsplit).
  rewrite (walk_eq prefix model h).
  destruct (walk model prefix h).2 as [o|e]; [|done].
  unfold get_value_for_key. rewrite Hk. intros Hget.
  apply py_getattr_has_dict in Hget as (l & -> & Hd & Hattr).
  unfold py_setattr. by rewrite Hd, store_attr_same.
Qed.

(** With the documented setter the round trip holds for every path that
    resolves. *)
Lemma round_trip_documented model key_path v h :
  (get_key_path model key_path h).2 = Ok v →
  set_key_path_documented model key_path v h = (h, Ok tt).
Proof.
  destruct (split_dot_snoc key_path) as (prefix & k & Hsplit).
  destruct (isdigit k) eqn:Hk.
  - rewrite (get_key_path_snoc _ _ _ _ _ Hsplit),
      (set_key_path_documented_snoc _ _ _ _ _ _ Hsplit).
    rewrite (walk_eq prefix model h).
    destruct (walk model prefix h).2 as [o|e]; [|done].
    rewrite get_value_for_key_eq, set_value_for_key_eq, Hk.
    destruct (int k) as [i|e]; [|done].
    unfold py_getitem, py_setitem, bind.
    pose proof (py_iter_ro o h) as Hro.
    destruct (py_iter o h) as [h' [xs|e]] eqn:Hit; simpl in *; subst; [|done].
    unfold seq_at. destruct (norm_index (length xs) i) as [p|]; [|done].
    destruct (xs !! p) as [w|] eqn:Hp; [|done]. intros [= ->].
    destruct o as [|l]; [done|]. unfold set_items. f_equal.
    rewrite list_insert_id by done.
    unfold py_iter in Hit. destruct (items (deref h l)) as [ys|] eqn:Hitems; [|done].
    injection Hit as <-. rewrite <- Hitems, object_eta. apply insert_id.
    unfold deref in *. destruct (h !! l) as [ob|]; [done|]. done.
  - intros Hget. rewrite <- (set_key_path_named _ _ _ _ _ _ Hsplit Hk).
    by eapply round_trip_named.
Qed.

(** C1 at a failing input.  The holder's attribute [xs] is a built-in list
    [[o10]] and the path is ["xs.0"].  The documented setter assigns index
    0 of the list, after which the path resolves to the new value;
    [set_key_path_] calls [setattr] on the list and raises
    [AttributeError], leaving the list as it was. *)
Theorem set_key_path_numeric_last_segment :
  set_key_path_ (VRef 1) "xs.0" (VRef 11) list_store
    = (list_store, Raise AttributeError)
  ∧ ∃ h', set_key_path_documented (VRef 1) "xs.0" (VRef 11) list_store = (h', Ok tt)
          ∧ get_key_path (VRef 1) "xs.0" h' = (h', Ok (VRef 11)).
Proof.
  split; [by vm_compute|]. eexists. split; by vm_compute.
Qed.

(** On a subscriptable instance that takes attributes the write succeeds,
    but it sets an attribute named ["0"]: the first child is untouched. *)
Lemma set_key_path_numeric_sets_attribute :
  ∃ h', set_key_path_ (VRef 1) "xs.0" (VRef 11) box_store = (h', Ok tt)
        ∧ get_key_path (VRef 1) "xs.0" h' = (h', Ok (VRef 10))
        ∧ attrs (deref h' 2) !! "0" = Some (VRef 11).
Proof. eexists. split_and!; by vm_compute. Qed.

(** On a built-in list the write-back does not even return. *)
Lemma set_get_round_trip_numeric_list :
  get_key_path (VRef 1) "xs.0" list_store = (list_store, Ok (VRef 10))
  ∧ set_key_path_ (VRef 1) "xs.0" (VRef 10) list_store
    = (list_store, Raise AttributeError).
Proof. split; by vm_compute. Qed.

(** C3 at a failing input.  The path ["xs.0"] resolves to the first child
    of a subscriptable instance; writing that child back at the same path
    changes the model: the instance gains an attribute named ["0"]. *)
Theorem set_get_round_trip_numeric :
  get_key_path (VRef 1) "xs.0" box_store = (box_store, Ok (VRef 10))
  ∧ ∃ h', set_key_path_ (VRef 1) "xs.0" (VRef 10) box_store = (h', Ok tt)
          ∧ attrs (deref box_store 2) !! "0" = None
          ∧ attrs (deref h' 2) !! "0" = Some (VRef 10)
          ∧ h' ≠ box_store.
Proof.
  split; [by vm_compute|]. eexists. split_and!; by vm_compute.
Qed.

(** ** Failure kinds of the locators *)

Lemma py_getattr_raises o k h e : (py_getattr o k h).2 = Raise e → e = AttributeError.
Proof.
  unfold py_getattr. destruct o as [|l]; simpl; [by intros [= <-]|].
  destruct (has_dict _); [|by intros [= <-]].
  destruct (attrs _ !! k); [done|by intros [= <-]].
Qed.

Lemma py_getitem_raises o i h e :
  (py_getitem o i h).2 = Raise e → e = TypeError ∨ e = IndexError.
Proof.
  unfold py_getitem, bind, py_iter. destruct o as [|l]; simpl; [intros [= <-]; auto|].
  destruct (items _) as [xs|]; [|intros [= <-]; auto].
  destruct (seq_at xs i); simpl; [done|intros [= <-]; auto].
Qed.

(** A walk fails only with a lookup error, or with the [ValueError] of
    [int] on a segment of digits that are not all decimal. *)
Lemma walk_raises keys : ∀ model h e,
  (walk model keys h).2 = Raise e →
  e ∈ [AttributeError; TypeError; IndexError; ValueError].
Proof.
  induction keys as [|key keys IH]; intros model h e; simpl; [done|].
  unfold bind. destruct (get_value_for_key model key h) as [h' [o|e']] eqn:Hget.
  - apply IH.
  - simpl. intros [= ->]. rewrite get_value_for_key_eq in Hget.
    destruct (isdigit key).
    + destruct (int key) as [i|e'] eqn:Hint.
      * destruct (py_getitem_raises model i h e) as [->| ->];
          [by rewrite Hget|repeat constructor..].
      * injection Hget as _ ->. rewrite (int_raises key e Hint). repeat constructor.
    + rewrite (py_getattr_raises model key h e) by (by rewrite Hget).
      repeat constructor.
Qed.

(** A walk along names fails only with [AttributeError]. *)
Lemma walk_names_raises keys : ∀ model h e,
  Forall (λ k, isdigit k = false) keys →
  (walk model keys h).2 = Raise e → e = AttributeError.
Proof.
  induction keys as [|key keys IH]; intros model h e Hkeys; simpl; [done|].
  apply Forall_cons in Hkeys as [Hk Hkeys].
  unfold bind. destruct (get_value_for_key model key h) as [h' [o|e']] eqn:Hget.
  - by apply IH.
  - simpl. intros [= ->]. rewrite get_value_for_key_eq, Hk in Hget.
    apply (py_getattr_raises model key h). by rewrite Hget.
Qed.

Lemma recognized_layers b h :
  class_of b h ≫= layers_keys = None ↔ ¬ recognized b h.
Proof.
  unfold recognized, recognized_classes. destruct b as [|l]; simpl.
  - split; [|done]. by intros _ (l & ? & _).
  - split.
    + intros Hnone (l' & [= <-] & Hin).
      repeat (apply elem_of_cons in Hin as [Hin|Hin]; [by rewrite Hin in Hnone|]).
      inversion Hin.
    + intros Hnot. destruct (cls (deref h l)) eqn:Hc; try done;
        destruct Hnot; exists l; rewrite Hc; (split; [done|]); repeat constructor.
Qed.

Lemma recognized_norm b h :
  class_of b h ≫= norm_keys = None ↔ ¬ recognized b h.
Proof.
  rewrite <- recognized_layers. destruct b as [|l]; simpl; [done|].
  by destruct (cls (deref h l)).
Qed.

Lemma walk_names model keys h :
  Forall (λ k, isdigit k = false) keys →
  walk model keys h =
  (h, (foldl (λ r k, match r with
                     | Ok o => (py_getattr o k h).2
                     | Raise e => Raise e
                     end) (Ok model) keys)).
Proof.
  intros Hkeys. revert model. induction Hkeys as [|k keys Hk _ IH]; intros model; [done|].
  simpl. unfold bind, get_value_for_key. rewrite Hk.
  pose proof (py_getattr_ro model k h) as Hro.
  destruct (py_getattr model k h) as [h' [o|e]]; simpl in *; subst; [apply IH|].
  f_equal. clear. by induction keys.
Qed.

(** The norm locator as a table lookup followed by one walk from the
    base model and the two checks on what the walk found. *)
Lemma get_final_norm_eq model h :
  get_final_norm model h =
  match handle model h with
  | None => (h, Raise ValueError)
  | Some b =>
      match class_of b h ≫= norm_keys with
      | None => (h, Raise NotImplementedError)
      | Some ks =>
          (h, match (walk b ks h).2 with
              | Ok VNone => Raise ValueError
              | Ok norm =>
                  if bool_decide (class_of norm h = Some LayerNorm) then Ok norm
                  else Raise AssertionError
              | Raise e => Raise e
              end)
      end
  end.
Proof.
  unfold get_final_norm, bind.
  rewrite py_hasattr_handle.
  destruct (handle model h) as [b|] eqn:Hb; [|done]. cbn [negb].
  rewrite py_getattr_handle, Hb.
  assert (∀ r : result val,
    match r with
    | Ok VNone => raise ValueError h
    | Ok (VRef l as norm) =>
        let '(h', r') := py_isinstance norm LayerNorm h in
        match r' with
        | Ok is_ln => (if is_ln then ret norm else raise AssertionError) h'
        | Raise e => (h', Raise e)
        end
    | Raise e => (h, Raise e)
    end =
    (h, match r with
        | Ok VNone => Raise ValueError
        | Ok norm =>
            if bool_decide (class_of norm h = Some LayerNorm) then Ok norm
            else Raise AssertionError
        | Raise e => Raise e
        end)) as Hcheck.
  { intros [[|l]|e]; [done| |done]. simpl.
    destruct (decide (cls (deref h l) = LayerNorm)) as [Hc|Hc].
    - by rewrite !bool_decide_eq_true_2 by congruence.
    - by rewrite !bool_decide_eq_false_2 by congruence. }
  destruct b as [|lb]; [done|].
  cbn [class_of mbind option_bind py_isinstance py_isinstance_any]. cbv beta.
  destruct (cls (deref h lb)) eqn:Hc; cbn [norm_keys];
    decide_classes Hc; try done.
  all: rewrite walk_names by (repeat constructor); cbn [foldl snd];
    rewrite <- Hcheck.
  all: repeat match goal with
       | |- context [py_getattr ?o ?k ?h'] =>
           let Hro := fresh "Hro" in
           pose proof (py_getattr_ro o k h') as Hro;
           destruct (py_getattr o k h') as [? [?|?]]; simpl in *; subst
       end; try done.
  all: by match goal with |- context [match ?a with VNone => _ | _ => _ end] =>
            destruct a
          end.
Qed.

Lemma get_final_norm_ro model h : (get_final_norm model h).1 = h.
Proof.
  rewrite get_final_norm_eq.
  destruct (handle model h) as [b|]; [|done]. by destruct (_ ≫= _).
Qed.

Lemma layers_keys_names b h ks :
  class_of b h ≫= layers_keys = Some ks →
  Forall (λ k, isdigit k = false) ("base_model" :: ks).
Proof.
  destruct (class_of b h) as [c|]; [|done]. simpl.
  destruct c; intros [= <-]; by repeat constructor.
Qed.

Lemma norm_keys_names b h ks :
  class_of b h ≫= norm_keys = Some ks → Forall (λ k, isdigit k = false) ks.
Proof.
  destruct (class_of b h) as [c|]; [|done]. simpl.
  destruct c; intros [= <-]; by repeat constructor.
Qed.

Lemma walk_not_config_error model keys h e :
  Forall (λ k, isdigit k = false) keys →
  (walk model keys h).2 = Raise e → e ≠ ValueError ∧ e ≠ NotImplementedError.
Proof. by intros Hkeys ->%walk_names_raises. Qed.

(** C8, as amended.  Neither locator ever writes to the store.  Both raise
    the unsupported-architecture error exactly when the [base_model] handle
    is there and belongs to no recognized family.  [get_transformer_layers]
    raises the configuration error exactly when the handle is absent;
    [get_final_norm] raises it exactly when the handle is absent or the
    norm it located is [None]. *)
Theorem locators_failure_kinds :
  (∀ model h, (get_transformer_layers model h).1 = h
              ∧ (get_final_norm model h).1 = h)
  ∧ config_error_iff_no_handle get_transformer_layers
  ∧ unsupported_iff_unrecognized get_transformer_layers
  ∧ (∀ model h,
       (get_final_norm model h).2 = Raise ValueError
       ↔ handle model h = None
         ∨ ∃ b ks, handle model h = Some b
                   ∧ class_of b h ≫= norm_keys = Some ks
                   ∧ (walk b ks h).2 = Ok VNone)
  ∧ unsupported_iff_unrecognized get_final_norm.
Proof.
  split_and!.
  - intros model h. split; [apply get_transformer_layers_ro|apply get_final_norm_ro].
  - intros model h. rewrite get_transformer_layers_eq.
    destruct (handle model h) as [b|]; [|done].
    destruct (class_of b h ≫= layers_keys) as [ks|] eqn:Hks; [|by split]. cbn [snd].
    destruct (walk model ("base_model" :: ks) h).2 as [ll|e] eqn:Hw; [by split|].
    destruct (walk_not_config_error _ _ _ _ (layers_keys_names _ _ _ Hks) Hw).
    split; [congruence|done].
  - intros model h. rewrite get_transformer_layers_eq.
    destruct (handle model h) as [b|]; [|split; [done|by intros (? & ? & _)]].
    destruct (class_of b h ≫= layers_keys) as [ks|] eqn:Hks.
    + cbn [snd]. split.
      * destruct (walk model ("base_model" :: ks) h).2 as [ll|e] eqn:Hw; [done|].
        destruct (walk_not_config_error _ _ _ _ (layers_keys_names _ _ _ Hks) Hw).
        congruence.
      * intros (b' & [= <-] & Hnot). apply recognized_layers in Hnot. congruence.
    + split; [|done]. intros _. exists b. split; [done|]. by apply recognized_layers.
  - intros model h. rewrite get_final_norm_eq.
    destruct (handle model h) as [b|]; [|by split; [left|]].
    destruct (class_of b h ≫= norm_keys) as [ks|] eqn:Hks.
    + cbn [snd]. split.
      * intros Hr. right. exists b, ks. split_and!; [done..|].
        destruct (walk b ks h).2 as [[|l]|e] eqn:Hw; [done| |].
        -- by destruct (bool_decide _).
        -- destruct (walk_not_config_error _ _ _ _ (norm_keys_names _ _ _ Hks) Hw).
           congruence.
      * intros [|(b' & ks' & ? & ? & Hw)]; [done|]. simplify_eq. by rewrite Hw.
    + split; [done|]. intros [|(b' & ks' & ? & ? & _)]; [done|]. simplify_eq.
  - intros model h. rewrite get_final_norm_eq.
    destruct (handle model h) as [b|]; [|split; [done|by intros (? & ? & _)]].
    destruct (class_of b h ≫= norm_keys) as [ks|] eqn:Hks.
    + cbn [snd]. split.
      * destruct (walk b ks h).2 as [[|l]|e] eqn:Hw; [done| |].
        -- by destruct (bool_decide _).
        -- destruct (walk_not_config_error _ _ _ _ (norm_keys_names _ _ _ Hks) Hw).
           congruence.
      * intros (b' & [= <-] & Hnot). apply recognized_norm in Hnot. congruence.
    + split; [|done]. intros _. exists b. split; [done|]. by apply recognized_norm.
Qed.

(** [get_final_norm] raises the configuration error on a model that has
    its [base_model] handle: an OPT style model whose decoder has
    [final_layer_norm = None]. *)
Lemma get_final_norm_none_raises_config_error :
  ¬ config_error_iff_no_handle get_final_norm.
Proof.
  intros Hclaim. destruct (Hclaim (VRef 1) opt_store) as [Hnone _].
  assert (handle (VRef 1) opt_store = None) as Hh by (apply Hnone; by vm_compute).
  vm_compute in Hh. discriminate Hh.
Qed.

(** ** Indices and the loops over the copied list *)

Lemma norm_index_bounds n i : in_bounds n i ↔ is_Some (norm_index n i).
Proof.
  unfold in_bounds, norm_index. case_decide; split; intros Hb; eauto; done.
Qed.

Lemma norm_index_nonneg n i :
  0 ≤ i < Z.of_nat n → norm_index n i = Some (Z.to_nat i).
Proof.
  intros Hi. unfold norm_index. rewrite decide_True by lia.
  by rewrite decide_False by lia.
Qed.

Lemma norm_index_neg n i :
  - Z.of_nat n ≤ i < 0 → norm_index n i = Some (Z.to_nat (Z.of_nat n + i)).
Proof.
  intros Hi. unfold norm_index. rewrite decide_True by lia.
  rewrite decide_True by lia. f_equal. lia.
Qed.

Lemma norm_index_lt n i p : norm_index n i = Some p → (p < n)%nat.
Proof.
  unfold norm_index. case_decide as Hb; [|done]. intros [= <-].
  case_decide; lia.
Qed.

Lemma seq_at_nonneg {A} (xs : list A) i :
  0 ≤ i < Z.of_nat (length xs) → seq_at xs i = xs !! Z.to_nat i.
Proof. intros Hi. unfold seq_at. by rewrite norm_index_nonneg. Qed.

Lemma seq_at_neg {A} (xs : list A) i :
  - Z.of_nat (length xs) ≤ i < 0 →
  seq_at xs i = xs !! Z.to_nat (Z.of_nat (length xs) + i).
Proof. intros Hi. unfold seq_at. by rewrite norm_index_neg. Qed.

Lemma seq_at_None {A} (xs : list A) i :
  seq_at xs i = None ↔ ¬ in_bounds (length xs) i.
Proof.
  rewrite norm_index_bounds. unfold seq_at.
  destruct (norm_index (length xs) i) as [p|] eqn:Hp.
  - split; [|by intros []; eauto]. intros Hnone.
    apply lookup_ge_None in Hnone. apply norm_index_lt in Hp. lia.
  - split; [|done]. by intros _ [? ?].
Qed.

(** The deletion loop: bounds. *)
Lemma delete_loop_length {A} order : ∀ xs : list A,
  (length (delete_loop order xs).1 ≤ length xs)%nat.
Proof.
  induction order as [|i order IH]; intros xs; simpl; [done|].
  destruct (norm_index (length xs) i) as [p|] eqn:Hp; [|done].
  etrans; [apply IH|]. rewrite length_delete; [lia|].
  apply lookup_lt_is_Some. by eapply norm_index_lt.
Qed.

Lemma delete_loop_raises {A} order : ∀ (xs : list A) e,
  (delete_loop order xs).2 = Raise e → e = IndexError.
Proof.
  induction order as [|i order IH]; intros xs e; simpl; [done|].
  destruct (norm_index (length xs) i); [apply IH|by intros [= <-]].
Qed.

(** The loop runs to its end only if every index is within the bounds of
    the list it started from. *)
Lemma delete_loop_ok_bounds {A} order : ∀ xs : list A,
  (delete_loop order xs).2 = Ok tt → Forall (in_bounds (length xs)) order.
Proof.
  induction order as [|i order IH]; intros xs; simpl; [by constructor|].
  destruct (norm_index (length xs) i) as [p|] eqn:Hp; [|done].
  intros Hok. constructor.
  - apply norm_index_bounds. by rewrite Hp.
  - apply IH in Hok. eapply Forall_impl; [exact Hok|].
    intros j. unfold in_bounds.
    assert (length (delete p xs) ≤ length xs)%nat; [|lia].
    rewrite length_delete; [lia|].
    apply lookup_lt_is_Some. by eapply norm_index_lt.
Qed.

Lemma delete_loop_out_of_bounds {A} order (xs : list A) i :
  i ∈ order → ¬ in_bounds (length xs) i →
  (delete_loop order xs).2 = Raise IndexError.
Proof.
  intros Hin Hout. destruct (delete_loop order xs).2 as [[]|e] eqn:Hr.
  - apply delete_loop_ok_bounds in Hr. rewrite Forall_forall in Hr.
    by destruct Hout; apply Hr.
  - by rewrite (delete_loop_raises _ _ _ Hr).
Qed.

(** Positions that are not listed stay. *)
Lemma without_positions_none {A} (xs : list A) : ∀ pos drop,
  (∀ j, j ∈ drop → j < pos) → without_positions pos drop xs = xs.
Proof.
  induction xs as [|x xs IH]; intros pos drop Hlow; simpl; [done|].
  rewrite decide_False; [|intros Hin; apply Hlow in Hin; lia].
  f_equal. apply IH. intros j Hj. apply Hlow in Hj. lia.
Qed.

Lemma without_positions_ext {A} (xs : list A) : ∀ pos drop1 drop2,
  (∀ j, j ∈ drop1 ↔ j ∈ drop2) →
  without_positions pos drop1 xs = without_positions pos drop2 xs.
Proof.
  induction xs as [|x xs IH]; intros pos drop1 drop2 Heq; simpl; [done|].
  rewrite (IH (pos + 1) drop1 drop2 Heq).
  destruct (decide (pos ∈ drop1)) as [H1|H1], (decide (pos ∈ drop2)) as [H2|H2];
    try done; by apply Heq in H1 || apply Heq in H2.
Qed.

(** Deleting the highest listed position first leaves the lower ones where
    they were. *)
Lemma without_positions_delete {A} (xs : list A) : ∀ pos i rest,
  pos ≤ i < pos + Z.of_nat (length xs) → (∀ j, j ∈ rest → j < i) →
  without_positions pos (i :: rest) xs
  = without_positions pos rest (delete (Z.to_nat (i - pos)) xs).
Proof.
  induction xs as [|x xs IH]; intros pos i rest Hi Hrest; simpl in *; [lia|].
  destruct (decide (i = pos)) as [->|Hne].
  - rewrite decide_True by apply list_elem_of_here.
    replace (Z.to_nat (pos - pos)) with 0%nat by lia. simpl.
    rewrite !without_positions_none; [done|..].
    + intros j Hj. apply Hrest in Hj. lia.
    + intros j [->|Hj]%elem_of_cons; [lia|]. apply Hrest in Hj. lia.
  - replace (Z.to_nat (i - pos)) with (S (Z.to_nat (i - (pos + 1)))) by lia. simpl.
    rewrite (IH (pos + 1) i rest) by (done || lia).
    destruct (decide (pos ∈ i :: rest)) as [H1|H1], (decide (pos ∈ rest)) as [H2|H2];
      try done.
    + apply elem_of_cons in H1 as [->|H1]; done.
    + destruct H1. by apply list_elem_of_further.
Qed.

(** On strictly descending positions the deletion loop removes exactly the
    listed positions. *)
Lemma delete_loop_descending {A} order : ∀ xs : list A,
  StronglySorted Z.gt order →
  Forall (λ i, 0 ≤ i < Z.of_nat (length xs)) order →
  delete_loop order xs = (without_positions 0 order xs, Ok tt).
Proof.
  induction order as [|i order IH]; intros xs Hsorted Hrange; simpl.
  - by rewrite without_positions_none by (intros j Hj; inversion Hj).
  - apply StronglySorted_inv in Hsorted as [Hsorted Hlow].
    apply Forall_cons in Hrange as [Hi Hrange]. rewrite Forall_forall in Hlow.
    rewrite norm_index_nonneg by done.
    assert (length (delete (Z.to_nat i) xs) = (length xs - 1)%nat) as Hlen.
    { apply length_delete, lookup_lt_is_Some. lia. }
    rewrite IH; [|done|].
    + f_equal. rewrite (without_positions_delete xs 0 i order).
      * by rewrite Z.sub_0_r.
      * lia.
      * intros j Hj. apply Hlow in Hj. lia.
    + rewrite Forall_forall in Hrange |- *. intros j Hj.
      specialize (Hrange j Hj). specialize (Hlow j Hj). lia.
Qed.

Global Instance Z_ge_total : Total Z.ge.
Proof. intros x y. lia. Qed.

Global Instance Z_ge_trans : Transitive Z.ge.
Proof. intros x y z. lia. Qed.

Lemma sorted_reverse_perm indices : sorted_reverse indices ≡ₚ indices.
Proof. apply merge_sort_Permutation. Qed.

(** [sorted(indices, reverse=True)] is in descending order, strictly so
    when no index is repeated. *)
Lemma sorted_reverse_descending indices :
  StronglySorted Z.ge (sorted_reverse indices).
Proof. apply StronglySorted_merge_sort; apply _. Qed.

Lemma strictly_descending order :
  StronglySorted Z.ge order → NoDup order → StronglySorted Z.gt order.
Proof.
  induction 1 as [|i order Hsorted IH Hlow]; intros Hnd; constructor.
  - apply IH. by apply NoDup_cons in Hnd as [_ ?].
  - apply NoDup_cons in Hnd as [Hnotin _]. rewrite Forall_forall in Hlow |- *.
    intros j Hj. specialize (Hlow j Hj).
    assert (i ≠ j) by (by intros ->). lia.
Qed.

(** Deleting a set of valid positions in descending order removes exactly
    those positions. *)
Lemma delete_loop_sorted_reverse {A} indices (xs : list A) :
  NoDup indices → Forall (λ i, 0 ≤ i < Z.of_nat (length xs)) indices →
  delete_loop (sorted_reverse indices) xs = (without_positions 0 indices xs, Ok tt).
Proof.
  intros Hnd Hrange. pose proof (sorted_reverse_perm indices) as Hperm.
  rewrite delete_loop_descending.
  - f_equal. apply without_positions_ext. intros j. by rewrite Hperm.
  - apply strictly_descending; [apply sorted_reverse_descending|by rewrite Hperm].
  - by rewrite Hperm.
Qed.

(** ** The copy and the loops over it *)

Lemma fresh_unallocated (h : heap) : h !! fresh (dom h) = None.
Proof. apply not_elem_of_dom, is_fresh. Qed.

Lemma new_ModuleList_eq xs (h : heap) :
  new_ModuleList xs h =
  (<[fresh (dom h) := {| cls := ModuleList; attrs := ∅; items := Some xs |}]> h,
   Ok (VRef (fresh (dom h)))).
Proof. done. Qed.

Lemma py_iter_eq l (h : heap) ob xs :
  h !! l = Some ob → items ob = Some xs → py_iter (VRef l) h = (h, Ok xs).
Proof. intros Hl Hitems. unfold py_iter. by rewrite (deref_allocated _ _ _ Hl), Hitems. Qed.

Lemma py_iter_inv o (h : heap) xs :
  (py_iter o h).2 = Ok xs →
  ∃ l ob, o = VRef l ∧ h !! l = Some ob ∧ items ob = Some xs.
Proof.
  intros Hit. destruct o as [|l]; [done|].
  destruct (py_iter_allocated _ _ _ Hit) as [ob Hob]. exists l, ob.
  split_and!; [done..|]. revert Hit. unfold py_iter.
  rewrite (deref_allocated _ _ _ Hob). by destruct (items ob); [intros [= ->]|].
Qed.

Lemma with_items_id (h : heap) l ob xs :
  h !! l = Some ob → items ob = Some xs →
  <[l := {| cls := cls ob; attrs := attrs ob; items := Some xs |}]> h = h.
Proof. intros Hl <-. rewrite object_eta. by apply insert_id. Qed.

Lemma set_items_eq l xs' (h : heap) ob :
  h !! l = Some ob →
  set_items l xs' h =
  (<[l := {| cls := cls ob; attrs := attrs ob; items := Some xs' |}]> h, Ok tt).
Proof. intros Hl. unfold set_items. by rewrite (deref_allocated _ _ _ Hl). Qed.

(** The deletion loop on the object at [l] acts on its children as
    [delete_loop] does and touches nothing else. *)
Lemma for_each_delitem l order : ∀ xs (h : heap) ob,
  h !! l = Some ob → items ob = Some xs →
  for_each order (λ i, py_delitem (VRef l) i) h =
  (<[l := {| cls := cls ob; attrs := attrs ob;
             items := Some (delete_loop order xs).1 |}]> h,
   (delete_loop order xs).2).
Proof.
  induction order as [|i order IH]; intros xs h ob Hl Hitems; simpl.
  - by rewrite (with_items_id h l ob xs).
  - unfold bind, py_delitem at 1. unfold bind.
    rewrite (py_iter_eq l h ob xs) by done.
    destruct (norm_index (length xs) i) as [p|] eqn:Hp.
    + rewrite (set_items_eq l _ h ob) by done.
      rewrite (IH (delete p xs) _ {| cls := cls ob; attrs := attrs ob;
                                     items := Some (delete p xs) |});
        [|apply lookup_insert_eq|done].
      simpl. by rewrite insert_insert_eq.
    + unfold raise. simpl. by rewrite (with_items_id h l ob xs).
Qed.

Lemma replace_loop_pairs {A} pairs : ∀ xs : list A,
  length (replace_loop pairs xs).1 = length xs.
Proof.
  induction pairs as [|[i x] pairs IH]; intros xs; simpl; [done|].
  destruct (norm_index (length xs) i); [|done]. by rewrite IH, length_insert.
Qed.

Lemma for_each_setitem l pairs : ∀ xs (h : heap) ob,
  h !! l = Some ob → items ob = Some xs →
  for_each pairs (λ '(i, x), py_setitem (VRef l) i x) h =
  (<[l := {| cls := cls ob; attrs := attrs ob;
             items := Some (replace_loop pairs xs).1 |}]> h,
   (replace_loop pairs xs).2).
Proof.
  induction pairs as [|[i x] pairs IH]; intros xs h ob Hl Hitems; simpl.
  - by rewrite (with_items_id h l ob xs).
  - unfold bind, py_setitem at 1. unfold bind.
    rewrite (py_iter_eq l h ob xs) by done.
    destruct (norm_index (length xs) i) as [p|] eqn:Hp.
    + rewrite (set_items_eq l _ h ob) by done.
      rewrite (IH (<[p := x]> xs) _ {| cls := cls ob; attrs := attrs ob;
                                       items := Some (<[p := x]> xs) |});
        [|apply lookup_insert_eq|done].
      simpl. by rewrite insert_insert_eq.
    + unfold raise. simpl. by rewrite (with_items_id h l ob xs).
Qed.

(** What the three builders return: a new object at an unused reference,
    holding the children the loop or the comprehension computed. *)
Lemma build_deleted_eq indices layer_list layers (h : heap) :
  (py_iter layer_list h).2 = Ok layers →
  build_deleted indices layer_list h =
  (<[fresh (dom h) :=
       {| cls := ModuleList; attrs := ∅;
          items := Some (delete_loop (sorted_reverse indices) layers).1 |}]> h,
   match (delete_loop (sorted_reverse indices) layers).2 with
   | Ok _ => Ok (VRef (fresh (dom h)))
   | Raise e => Raise e
   end).
Proof.
  intros Hit. unfold build_deleted, bind.
  pose proof (py_iter_ro layer_list h) as Hro.
  destruct (py_iter layer_list h) as [h' [xs|e]]; cbn [fst snd] in *; simplify_eq.
  rewrite new_ModuleList_eq.
  rewrite (for_each_delitem _ _ layers _
             {| cls := ModuleList; attrs := ∅; items := Some layers |});
    [|apply lookup_insert_eq|done].
  simpl. rewrite insert_insert_eq.
  by destruct (delete_loop _ _).2 as [[]|e].
Qed.

Lemma build_replaced_eq indices replacements layer_list layers (h : heap) :
  (py_iter layer_list h).2 = Ok layers →
  build_replaced indices replacements layer_list h =
  (<[fresh (dom h) :=
       {| cls := ModuleList; attrs := ∅;
          items := Some (replace_loop (zip indices replacements) layers).1 |}]> h,
   match (replace_loop (zip indices replacements) layers).2 with
   | Ok _ => Ok (VRef (fresh (dom h)))
   | Raise e => Raise e
   end).
Proof.
  intros Hit. unfold build_replaced, bind.
  pose proof (py_iter_ro layer_list h) as Hro.
  destruct (py_iter layer_list h) as [h' [xs|e]]; cbn [fst snd] in *; simplify_eq.
  rewrite new_ModuleList_eq.
  rewrite (for_each_setitem _ _ layers _
             {| cls := ModuleList; attrs := ∅; items := Some layers |});
    [|apply lookup_insert_eq|done].
  simpl. rewrite insert_insert_eq.
  by destruct (replace_loop _ _).2 as [[]|e].
Qed.

Lemma comprehension_getitem layer_list layers (h : heap) indices :
  (py_iter layer_list h).2 = Ok layers →
  comprehension indices (λ i, py_getitem layer_list i) h =
  (h, match mapM (seq_at layers) indices with
      | Some permuted => Ok permuted
      | None => Raise IndexError
      end).
Proof.
  intros Hit. pose proof (py_iter_ro layer_list h) as Hro.
  induction indices as [|i indices IH]; simpl; [done|].
  unfold bind, py_getitem at 1. unfold bind.
  destruct (py_iter layer_list h) as [h' [xs|e]]; cbn [fst snd] in *; simplify_eq.
  destruct (seq_at layers i) as [v|]; simpl; [|done].
  rewrite IH. by destruct (mapM (seq_at layers) indices).
Qed.

Lemma build_permuted_eq indices layer_list layers (h : heap) :
  (py_iter layer_list h).2 = Ok layers →
  build_permuted indices layer_list h =
  match mapM (seq_at layers) indices with
  | Some permuted =>
      (<[fresh (dom h) :=
           {| cls := ModuleList; attrs := ∅; items := Some permuted |}]> h,
       Ok (VRef (fresh (dom h))))
  | None => (h, Raise IndexError)
  end.
Proof.
  intros Hit. unfold build_permuted, bind.
  rewrite (comprehension_getitem _ layers) by done.
  by destruct (mapM (seq_at layers) indices).
Qed.

(** ** Inside the scope of a layer operation *)

Lemma with_enter_raise {Y A} (cm : contextmanager Y) (body : Y → Py A) h h1 e :
  cm_enter cm h = (h1, Raise e) → with_ cm body h = (h1, Raise e).
Proof. intros Henter. unfold with_, bind. by rewrite Henter. Qed.

Lemma with_enter_ok {Y A} (cm : contextmanager Y) (body : Y → Py A) h h1 st y :
  cm_enter cm h = (h1, Ok (st, y)) →
  with_ cm body h = try_finally (body y) (cm_exit cm st) h1.
Proof. intros Henter. unfold with_, bind. by rewrite Henter. Qed.

(** A builder that allocates the new list and leaves the rest of the store
    alone gets it installed; the original list keeps its children. *)
Lemma install_fresh model build h list_path layer_list layers final :
  located model h list_path layer_list layers →
  build layer_list h =
    (<[fresh (dom h) := {| cls := ModuleList; attrs := ∅; items := Some final |}]> h,
     Ok (VRef (fresh (dom h)))) →
  ∃ h1, install_built model build h = (h1, Ok ((list_path, layer_list), model))
        ∧ (∃ new_list, get_key_path model list_path h1 = (h1, Ok new_list)
                       ∧ new_list ≠ layer_list
                       ∧ py_iter new_list h1 = (h1, Ok final))
        ∧ py_iter layer_list h1 = (h1, Ok layers)
        ∧ restorable model list_path h1.
Proof.
  intros [Hloc Hit] Hbuild.
  pose proof (fresh_unallocated h) as Hfresh.
  destruct (install_built_ok model build h list_path layer_list _ _
              ltac:(by rewrite Hloc) Hbuild) as (h1 & Henter & Hget & Hres & Hsame).
  { by apply insert_subseteq. }
  assert (∀ o xs, (py_iter o h).2 = Ok xs → py_iter o h1 = (h1, Ok xs)) as Hkeep.
  { intros o xs Hxs.
    destruct (py_iter_inv _ _ _ Hxs) as (l & ob & -> & Hl & Hitems).
    unfold py_iter. destruct (Hsame l) as [_ ->].
    erewrite deref_weaken; [|by apply insert_subseteq|done]. by rewrite Hitems. }
  exists h1. split_and!; [done| |by apply Hkeep; rewrite Hit|done].
  exists (VRef (fresh (dom h))). split_and!; [done| |].
  - intros <-. destruct (py_iter_allocated (fresh (dom h)) h layers) as [ob Hob];
      [by rewrite Hit|congruence].
  - unfold py_iter. destruct (Hsame (fresh (dom h))) as [_ ->].
    by rewrite (deref_allocated _ _ _ (lookup_insert_eq _ _ _)).
Qed.

Lemma install_raise model build h list_path layer_list layers ha e :
  located model h list_path layer_list layers →
  build layer_list h = (ha, Raise e) → h ⊆ ha →
  install_built model build h = (ha, Raise e) ∧ unmodified h ha.
Proof.
  intros [Hloc _] Hbuild Hsub. split; [|done].
  eapply install_built_raise; [by rewrite Hloc|done].
Qed.

(** [delete_layers]: the installed copy holds what the deletion loop left. *)
Lemma delete_layers_enter_ok model h list_path layer_list layers indices final :
  located model h list_path layer_list layers →
  delete_loop (sorted_reverse indices) layers = (final, Ok tt) →
  ∃ h1, installed (delete_layers model indices) model h list_path layer_list h1 final
        ∧ py_iter layer_list h1 = (h1, Ok layers)
        ∧ restorable model list_path h1.
Proof.
  intros Hloc Hloop.
  destruct (install_fresh model (build_deleted indices) h list_path layer_list
              layers final Hloc) as (h1 & Henter & Hnew & Hold & Hres).
  { rewrite (build_deleted_eq _ _ layers) by (by rewrite (proj2 Hloc)).
    by rewrite Hloop. }
  exists h1. split_and!; [|done..]. split; [|done].
  by rewrite delete_layers_enter.
Qed.

Lemma delete_layers_enter_raise model h list_path layer_list layers indices e :
  located model h list_path layer_list layers →
  (delete_loop (sorted_reverse indices) layers).2 = Raise e →
  ∃ h1, cm_enter (delete_layers model indices) h = (h1, Raise e) ∧ unmodified h h1.
Proof.
  intros Hloc Hloop. eexists. rewrite delete_layers_enter.
  eapply install_raise; [done| |].
  - rewrite (build_deleted_eq _ _ layers) by (by rewrite (proj2 Hloc)).
    by rewrite Hloop.
  - apply insert_subseteq, fresh_unallocated.
Qed.

(** [permute_layers]: the installed list holds what the comprehension
    collected. *)
Lemma permute_layers_enter_ok model h list_path layer_list layers indices :
  located model h list_path layer_list layers →
  Forall (in_bounds (length layers)) indices →
  ∃ h1 new,
    installed (permute_layers model indices) model h list_path layer_list h1 new
    ∧ length new = length indices
    ∧ (∀ k i, indices !! k = Some i → new !! k = seq_at layers i)
    ∧ py_iter layer_list h1 = (h1, Ok layers)
    ∧ restorable model list_path h1.
Proof.
  intros Hloc Hbounds.
  destruct (mapM_is_Some_2 (seq_at layers) indices) as [new Hnew].
  { eapply Forall_impl; [exact Hbounds|]. intros i Hi. simpl.
    destruct (seq_at layers i) eqn:Hat; [done|]. by apply seq_at_None in Hat. }
  destruct (install_fresh model (build_permuted indices) h list_path layer_list
              layers new Hloc) as (h1 & Henter & Hinst & Hold & Hres).
  { rewrite (build_permuted_eq _ _ layers) by (by rewrite (proj2 Hloc)).
    by rewrite Hnew. }
  apply mapM_Some_1 in Hnew.
  exists h1, new. split_and!; [|by erewrite <- Forall2_length| |done..].
  - split; [|done]. by rewrite permute_layers_enter.
  - intros k i Hk. destruct (Forall2_lookup_l _ _ _ _ _ Hnew Hk) as (v & -> & ->).
    done.
Qed.

Lemma permute_layers_enter_raise model h list_path layer_list layers indices i :
  located model h list_path layer_list layers →
  i ∈ indices → ¬ in_bounds (length layers) i →
  cm_enter (permute_layers model indices) h = (h, Raise IndexError).
Proof.
  intros Hloc Hin Hout. rewrite permute_layers_enter.
  eapply install_raise; [done| |done].
  rewrite (build_permuted_eq _ _ layers) by (by rewrite (proj2 Hloc)).
  rewrite (mapM_None_2 (seq_at layers) indices); [done|].
  apply Exists_exists. exists i. split; [done|]. by apply seq_at_None.
Qed.

(** The replacement loop: bounds, untouched positions, last write. *)
Lemma replace_loop_raises {A} pairs : ∀ (xs : list A) e,
  (replace_loop pairs xs).2 = Raise e → e = IndexError.
Proof.
  induction pairs as [|[i x] pairs IH]; intros xs e; simpl; [done|].
  destruct (norm_index (length xs) i); [apply IH|by intros [= <-]].
Qed.

Lemma replace_loop_ok {A} pairs : ∀ xs : list A,
  (replace_loop pairs xs).2 = Ok tt
  ↔ Forall (λ p, in_bounds (length xs) p.1) pairs.
Proof.
  induction pairs as [|[i x] pairs IH]; intros xs; simpl.
  - split; [by constructor|done].
  - rewrite Forall_cons. simpl. rewrite norm_index_bounds.
    destruct (norm_index (length xs) i) as [p|] eqn:Hp.
    + rewrite IH, length_insert. split; [by eauto|by intros [_ ?]].
    + split; [done|]. by intros [[? ?] _].
Qed.

Lemma replace_loop_out_of_bounds {A} pairs (xs : list A) i x :
  (i, x) ∈ pairs → ¬ in_bounds (length xs) i →
  (replace_loop pairs xs).2 = Raise IndexError.
Proof.
  intros Hin Hout. destruct (replace_loop pairs xs).2 as [[]|e] eqn:Hr.
  - apply replace_loop_ok in Hr. rewrite Forall_forall in Hr.
    destruct Hout. apply (Hr (i, x) Hin).
  - by rewrite (replace_loop_raises _ _ _ Hr).
Qed.

Lemma replace_loop_untouched {A} pairs : ∀ (xs : list A) p,
  (∀ i x, (i, x) ∈ pairs → norm_index (length xs) i ≠ Some p) →
  (replace_loop pairs xs).1 !! p = xs !! p.
Proof.
  induction pairs as [|[i x] pairs IH]; intros xs p Hfree; simpl; [done|].
  destruct (norm_index (length xs) i) as [q|] eqn:Hq; [|done].
  rewrite IH.
  - apply list_lookup_insert_ne. intros ->.
    by apply (Hfree i x); [apply list_elem_of_here|].
  - intros j y Hin. rewrite length_insert. apply (Hfree j y).
    by apply list_elem_of_further.
Qed.

Lemma replace_loop_app {A} pre post : ∀ xs : list A,
  (replace_loop pre xs).2 = Ok tt →
  replace_loop (pre ++ post) xs = replace_loop post (replace_loop pre xs).1.
Proof.
  induction pre as [|[i x] pre IH]; intros xs; simpl; [done|].
  destruct (norm_index (length xs) i); [apply IH|done].
Qed.

Lemma replace_loop_last_write {A} pairs (xs : list A) k i x p :
  (replace_loop pairs xs).2 = Ok tt →
  pairs !! k = Some (i, x) → norm_index (length xs) i = Some p →
  (∀ k' i' x', (k < k')%nat → pairs !! k' = Some (i', x') →
               norm_index (length xs) i' ≠ Some p) →
  (replace_loop pairs xs).1 !! p = Some x.
Proof.
  intros Hok Hk Hp Hlater. apply replace_loop_ok in Hok.
  rewrite <- (take_drop_middle pairs k (i, x) Hk) in Hok |- *.
  apply Forall_app in Hok as [Hpre Hpost].
  rewrite replace_loop_app by (by apply replace_loop_ok).
  simpl. rewrite replace_loop_pairs, Hp.
  rewrite replace_loop_untouched.
  - apply list_lookup_insert_eq. rewrite replace_loop_pairs.
    by eapply norm_index_lt.
  - intros j y Hin. rewrite length_insert, replace_loop_pairs.
    apply list_elem_of_lookup in Hin as [m Hm]. rewrite lookup_drop in Hm.
    apply (Hlater (S k + m)%nat j y); [lia|done].
Qed.

(** [replace_layers]: the installed copy holds what the replacement loop
    left. *)
Lemma replace_layers_enter_ok model h list_path layer_list layers indices
    replacements :
  located model h list_path layer_list layers →
  (replace_loop (zip indices replacements) layers).2 = Ok tt →
  ∃ h1, installed (replace_layers model indices replacements) model h list_path
          layer_list h1 (replace_loop (zip indices replacements) layers).1
        ∧ py_iter layer_list h1 = (h1, Ok layers)
        ∧ restorable model list_path h1.
Proof.
  intros Hloc Hloop.
  destruct (install_fresh model (build_replaced indices replacements) h list_path
              layer_list layers (replace_loop (zip indices replacements) layers).1
              Hloc) as (h1 & Henter & Hnew & Hold & Hres).
  { rewrite (build_replaced_eq _ _ _ layers) by (by rewrite (proj2 Hloc)).
    by rewrite Hloop. }
  exists h1. split_and!; [|done..]. split; [|done].
  by rewrite replace_layers_enter.
Qed.

Lemma replace_layers_enter_raise model h list_path layer_list layers indices
    replacements e :
  located model h list_path layer_list layers →
  (replace_loop (zip indices replacements) layers).2 = Raise e →
  ∃ h1, cm_enter (replace_layers model indices replacements) h = (h1, Raise e)
        ∧ unmodified h h1.
Proof.
  intros Hloc Hloop. eexists. rewrite replace_layers_enter.
  eapply install_raise; [done| |].
  - rewrite (build_replaced_eq _ _ _ layers) by (by rewrite (proj2 Hloc)).
    by rewrite Hloop.
  - apply insert_subseteq, fresh_unallocated.
Qed.

(** Leaving the scope of a layer operation straight after entering it. *)
Lemma layers_exit_restores {A} model (cm : contextmanager val) h h1 list_path
    layer_list layers (r : result A) :
  located model h list_path layer_list layers →
  cm_enter cm h = (h1, Ok ((list_path, layer_list), model)) →
  cm_exit cm (list_path, layer_list) = set_key_path_ model list_path layer_list →
  restorable model list_path h1 →
  py_iter layer_list h1 = (h1, Ok layers) →
  ∃ h3, with_ cm (λ _ h', (h', r)) h = (h3, r)
        ∧ get_key_path model list_path h3 = (h3, Ok layer_list)
        ∧ py_iter layer_list h3 = (h3, Ok layers).
Proof.
  intros [Hloc _] Henter Hexit Hres Hold.
  destruct (get_transformer_layers_ok model h list_path layer_list)
    as (prefix & k & Hsplit & Hfresh & Hk & _); [by rewrite Hloc|].
  destruct (restorable_set model list_path prefix k layer_list h1)
    as (h3 & Hset & Hget & _ & Hsame); [done..|].
  exists h3. split_and!; [|done|].
  - rewrite (with_enter_ok _ _ _ _ _ _ Henter). unfold try_finally.
    by rewrite Hexit, Hset.
  - destruct (py_iter_inv layer_list h1 layers) as (l & ob & -> & Hl & Hitems);
      [by rewrite Hold|].
    unfold py_iter. destruct (Hsame l) as [_ ->].
    by rewrite (deref_allocated _ _ _ Hl), Hitems.
Qed.

(** ** The layer operations *)

Lemma refused_of_raise (cm : contextmanager val) model h list_path layer_list
    layers h1 :
  located model h list_path layer_list layers →
  cm_enter cm h = (h1, Raise IndexError) → unmodified h h1 →
  refused cm model h list_path layer_list.
Proof.
  intros [Hloc _] Henter Hsub. exists h1. split_and!; [done..|].
  destruct (get_transformer_layers_ok model h list_path layer_list)
    as (_ & _ & _ & _ & _ & Hget); [by rewrite Hloc|].
  apply (walk_weaken _ h); [done|]. unfold get_key_path in Hget. by rewrite Hget.
Qed.

(** C4, as amended.  On a model whose layer list has [n] layers,
    [delete_layers] and [permute_layers] given an index outside
    [-n <= i < n] raise [IndexError], and so does [replace_layers] when
    such an index is paired with a replacement; this happens before the
    new list is installed: every object of the model is as it was and the
    path still resolves to the original list. *)
Theorem out_of_range_index_raises model h list_path layer_list layers :
  located model h list_path layer_list layers →
  (∀ indices i, i ∈ indices → ¬ in_bounds (length layers) i →
     refused (delete_layers model indices) model h list_path layer_list)
  ∧ (∀ indices i, i ∈ indices → ¬ in_bounds (length layers) i →
       refused (permute_layers model indices) model h list_path layer_list)
  ∧ (∀ indices replacements i r,
       (i, r) ∈ zip indices replacements → ¬ in_bounds (length layers) i →
       refused (replace_layers model indices replacements) model h list_path
         layer_list).
Proof.
  intros Hloc. split_and!.
  - intros indices i Hin Hout.
    destruct (delete_layers_enter_raise model h list_path layer_list layers
                indices IndexError Hloc) as (h1 & Henter & Hsub).
    { apply (delete_loop_out_of_bounds _ _ i); [|done].
      by rewrite sorted_reverse_perm. }
    by eapply refused_of_raise.
  - intros indices i Hin Hout. eapply refused_of_raise; [done| |done].
    by eapply permute_layers_enter_raise.
  - intros indices replacements i r Hin Hout.
    destruct (replace_layers_enter_raise model h list_path layer_list layers
                indices replacements IndexError Hloc) as (h1 & Henter & Hsub).
    { by apply (replace_loop_out_of_bounds _ _ i r). }
    by eapply refused_of_raise.
Qed.

Lemma gpt2_store_located :
  located (VRef 1) gpt2_store "base_model.h" (VRef 3)
    [VRef 10; VRef 11; VRef 12; VRef 13; VRef 14].
Proof. split; vm_compute; reflexivity. Defined.

(** [replace_layers] does not raise on every out-of-bounds index: one that
    has no replacement paired with it is never used, and the scope is
    entered without an error. *)
Lemma replace_layers_skips_unpaired_index :
  ¬ replace_raises_on_any_out_of_bounds.
Proof.
  intros Hclaim.
  destruct (Hclaim (VRef 1) gpt2_store "base_model.h" (VRef 3) _ [7] [] 7
              gpt2_store_located) as (h1 & Henter).
  - repeat constructor.
  - unfold in_bounds. simpl. lia.
  - vm_compute in Henter. discriminate Henter.
Qed.

(** C5.  On a model whose layer list is [layers], with every index within
    [0 <= i < n], inside the scope of [permute_layers] the path of the
    layer list resolves to a new list of [len(indices)] layers whose layer
    at position [k] is the original layer at position [indices[k]]. *)
Theorem permute_layers_installs model h list_path layer_list layers indices :
  located model h list_path layer_list layers →
  Forall (λ i, 0 ≤ i < Z.of_nat (length layers)) indices →
  ∃ h1 new,
    installed (permute_layers model indices) model h list_path layer_list h1 new
    ∧ length new = length indices
    ∧ ∀ k i, indices !! k = Some i → new !! k = layers !! Z.to_nat i.
Proof.
  intros Hloc Hrange.
  destruct (permute_layers_enter_ok model h list_path layer_list layers indices Hloc)
    as (h1 & new & Hinst & Hlen & Hnew & _).
  { eapply Forall_impl; [exact Hrange|]. unfold in_bounds. lia. }
  exists h1, new. split_and!; [done..|].
  intros k i Hk. rewrite (Hnew k i Hk). apply seq_at_nonneg.
  rewrite Forall_forall in Hrange. apply Hrange. by eapply list_elem_of_lookup_2.
Qed.

Lemma gpt2_store4_located :
  located (VRef 1) gpt2_store4 "base_model.h" (VRef 3)
    [VRef 10; VRef 11; VRef 12; VRef 13].
Proof. split; vm_compute; reflexivity. Defined.

(** Indices [[0, 0, 2]] on four layers: the installed list is
    [[L0, L0, L2]]. *)
Example permute_layers_0_0_2 :
  ∃ h1, installed (permute_layers (VRef 1) [0; 0; 2]) (VRef 1) gpt2_store4
          "base_model.h" (VRef 3) h1 [VRef 10; VRef 10; VRef 12].
Proof.
  eexists. split; [vm_compute; reflexivity|].
  eexists. split_and!; [vm_compute; reflexivity|done|vm_compute; reflexivity].
Qed.

(** C6.  On a model whose layer list is [layers], for a set of indices
    within [0 <= i < n], inside the scope of [delete_layers] the path of
    the layer list resolves to a new list that holds the original layers
    without those at the listed positions; it is what deleting in
    descending index order leaves, and the original list still holds all
    its layers. *)
Theorem delete_layers_installs model h list_path layer_list layers indices :
  located model h list_path layer_list layers →
  NoDup indices →
  Forall (λ i, 0 ≤ i < Z.of_nat (length layers)) indices →
  ∃ h1,
    installed (delete_layers model indices) model h list_path layer_list h1
      (without_positions 0 indices layers)
    ∧ StronglySorted Z.ge (sorted_reverse indices)
    ∧ delete_loop (sorted_reverse indices) layers
      = (without_positions 0 indices layers, Ok tt)
    ∧ py_iter layer_list h1 = (h1, Ok layers).
Proof.
  intros Hloc Hnd Hrange.
  pose proof (delete_loop_sorted_reverse indices layers Hnd Hrange) as Hloop.
  destruct (delete_layers_enter_ok model h list_path layer_list layers indices _
              Hloc Hloop) as (h1 & Hinst & Hold & _).
  exists h1. split_and!; [done| |done..]. apply sorted_reverse_descending.
Qed.

(** C7, as amended.  On a model whose layer list is [layers], with every
    index that is paired with a replacement within bounds, inside the scope
    of [replace_layers] the path of the layer list resolves to a new list
    of the same length in which the position addressed by [indices[k]]
    holds [replacements[k]], for each [k] below the length of the shorter
    list whose position is not addressed again by a later pair (the last
    write wins), and every position no pair addresses holds the original
    layer.  The original list keeps its layers, and once the scope is left
    the path resolves to it again. *)
Theorem replace_layers_installs model h list_path layer_list layers indices
    replacements (outcome : result unit) :
  located model h list_path layer_list layers →
  (∀ k i r, indices !! k = Some i → replacements !! k = Some r →
            in_bounds (length layers) i) →
  ∃ h1 new,
    installed (replace_layers model indices replacements) model h list_path
      layer_list h1 new
    ∧ length new = length layers
    ∧ (∀ k i r p,
         indices !! k = Some i → replacements !! k = Some r →
         norm_index (length layers) i = Some p →
         (∀ k' i' r', (k < k')%nat → indices !! k' = Some i' →
                      replacements !! k' = Some r' →
                      norm_index (length layers) i' ≠ Some p) →
         new !! p = Some r)
    ∧ (∀ p, (∀ k i r, indices !! k = Some i → replacements !! k = Some r →
                      norm_index (length layers) i ≠ Some p) →
            new !! p = layers !! p)
    ∧ py_iter layer_list h1 = (h1, Ok layers)
    ∧ ∃ h3, with_ (replace_layers model indices replacements)
              (λ _ h', (h', outcome)) h = (h3, outcome)
            ∧ get_key_path model list_path h3 = (h3, Ok layer_list)
            ∧ py_iter layer_list h3 = (h3, Ok layers).
Proof.
  intros Hloc Hbounds.
  assert ((replace_loop (zip indices replacements) layers).2 = Ok tt) as Hok.
  { apply replace_loop_ok, Forall_forall. intros [i r] Hin.
    apply list_elem_of_lookup in Hin as [k Hk].
    apply lookup_zip_Some in Hk as [Hi Hr]. by eapply Hbounds. }
  destruct (replace_layers_enter_ok model h list_path layer_list layers indices
              replacements Hloc Hok) as (h1 & Hinst & Hold & Hres).
  exists h1, (replace_loop (zip indices replacements) layers).1.
  split_and!; [done|apply replace_loop_pairs| | |done|].
  - intros k i r p Hi Hr Hp Hlater.
    apply (replace_loop_last_write _ _ k i r p); [done| |done|].
    + by apply lookup_zip_Some.
    + intros k' i' r' Hlt [Hi' Hr']%lookup_zip_Some. by eapply Hlater.
  - intros p Hfree. apply replace_loop_untouched. intros i r Hin.
    apply list_elem_of_lookup in Hin as [k Hk].
    apply lookup_zip_Some in Hk as [Hi Hr]. by eapply Hfree.
  - by eapply layers_exit_restores; [done|apply Hinst|..].
Qed.

(** Not every zipped index holds its replacement inside the scope of
    [replace_layers]: with indices [[0, 0]] and replacements [[X, Y]]
    position 0 holds [Y], not [X]. *)
Lemma replace_layers_last_replacement_stays :
  ¬ replaced_positions_hold_replacements.
Proof.
  intros Hclaim.
  assert (seq_at [VRef 14; VRef 11; VRef 12; VRef 13] 0 = Some (VRef 13)) as Hat.
  { apply (Hclaim (VRef 1) gpt2_store4 "base_model.h" (VRef 3)
             [VRef 10; VRef 11; VRef 12; VRef 13] [0; 0] [VRef 13; VRef 14]
             (cm_enter (replace_layers (VRef 1) [0; 0] [VRef 13; VRef 14])
                gpt2_store4).1 _ gpt2_store4_located) with (k := 0%nat);
      [|done..].
    split; [vm_compute; reflexivity|].
    eexists. split_and!; [vm_compute; reflexivity|done|vm_compute; reflexivity]. }
  vm_compute in Hat. discriminate Hat.
Qed.

Lemma sorted_reverse_singleton i : sorted_reverse [i] = [i].
Proof. reflexivity. Qed.

(** X23.  On a model whose layer list has [n] layers, with the indices
    used within bounds, a negative index [i] addresses the layer at
    position [n + i]: [permute_layers] puts that layer at the position of
    the index, [replace_layers] writes there the replacement paired with
    the index (the last write winning), and [delete_layers] given the
    single index [i] removes that layer. *)
Theorem negative_index_counts_from_end model h list_path layer_list layers :
  located model h list_path layer_list layers →
  (∀ indices, Forall (in_bounds (length layers)) indices →
     ∃ h1 new,
       installed (permute_layers model indices) model h list_path layer_list h1 new
       ∧ ∀ k i, indices !! k = Some i → i < 0 →
                new !! k = layers !! Z.to_nat (Z.of_nat (length layers) + i))
  ∧ (∀ indices replacements,
       (∀ k i r, indices !! k = Some i → replacements !! k = Some r →
                 in_bounds (length layers) i) →
       ∃ h1 new,
         installed (replace_layers model indices replacements) model h list_path
           layer_list h1 new
         ∧ ∀ k i r, indices !! k = Some i → replacements !! k = Some r → i < 0 →
             (∀ k' i' r', (k < k')%nat → indices !! k' = Some i' →
                          replacements !! k' = Some r' →
                          norm_index (length layers) i' ≠ norm_index (length layers) i) →
             new !! Z.to_nat (Z.of_nat (length layers) + i) = Some r)
  ∧ (∀ i, - Z.of_nat (length layers) ≤ i < 0 →
       ∃ h1, installed (delete_layers model [i]) model h list_path layer_list h1
               (delete (Z.to_nat (Z.of_nat (length layers) + i)) layers)).
Proof.
  intros Hloc. split_and!.
  - intros indices Hbounds.
    destruct (permute_layers_enter_ok model h list_path layer_list layers indices
                Hloc Hbounds) as (h1 & new & Hinst & _ & Hnew & _).
    exists h1, new. split; [done|]. intros k i Hk Hneg.
    rewrite (Hnew k i Hk). apply seq_at_neg.
    rewrite Forall_forall in Hbounds.
    assert (in_bounds (length layers) i) as Hi
      by (apply Hbounds; by eapply list_elem_of_lookup_2).
    unfold in_bounds in Hi. lia.
  - intros indices replacements Hbounds.
    assert ((replace_loop (zip indices replacements) layers).2 = Ok tt) as Hok.
    { apply replace_loop_ok, Forall_forall. intros [i r] Hin.
      apply list_elem_of_lookup in Hin as [k Hk].
      apply lookup_zip_Some in Hk as [Hi Hr]. by eapply Hbounds. }
    destruct (replace_layers_enter_ok model h list_path layer_list layers indices
                replacements Hloc Hok) as (h1 & Hinst & _).
    eexists h1, _. split; [exact Hinst|].
    intros k i r Hi Hr Hneg Hlater.
    assert (norm_index (length layers) i
            = Some (Z.to_nat (Z.of_nat (length layers) + i))) as Hp.
    { apply norm_index_neg. specialize (Hbounds k i r Hi Hr).
      unfold in_bounds in Hbounds. lia. }
    apply (replace_loop_last_write _ _ k i r); [done| |done|].
    + by apply lookup_zip_Some.
    + intros k' i' r' Hlt [Hi' Hr']%lookup_zip_Some. rewrite <- Hp.
      by eapply Hlater.
  - intros i Hi.
    destruct (delete_layers_enter_ok model h list_path layer_list layers [i]
                (delete (Z.to_nat (Z.of_nat (length layers) + i)) layers) Hloc)
      as (h1 & Hinst & _); [|by exists h1].
    rewrite sorted_reverse_singleton. simpl. by rewrite norm_index_neg.
Qed.

(** Indices [[-1]]: the installed list holds the last layer alone. *)
Example permute_layers_last :
  ∃ h1, installed (permute_layers (VRef 1) [-1]) (VRef 1) gpt2_store
          "base_model.h" (VRef 3) h1 [VRef 14].
Proof.
  eexists. split; [vm_compute; reflexivity|].
  eexists. split_and!; [vm_compute; reflexivity|done|vm_compute; reflexivity].
Qed.

(** [delete_layers] resolves each index against the copy as the earlier
    deletions left it.  On two layers the indices [[-1, -2]] are both
    within bounds, yet after the last layer is deleted [-2] is out of
    bounds for the one layer left, and entering the scope raises
    [IndexError]. *)
Lemma delete_layers_negative_indices_raise :
  ¬ delete_accepts_negative_indices.
Proof.
  intros Hclaim.
  destruct (Hclaim (VRef 1) gpt2_store2 "base_model.h" (VRef 3)
              [VRef 10; VRef 11] [-1; -2]) as (h1 & st & Henter).
  - split; vm_compute; reflexivity.
  - repeat constructor; simpl; lia.
  - vm_compute in Henter. discriminate Henter.
Qed.

(** On five layers the same indices delete the last layer and then the
    layer at position 2, where [-2] counted from the end of the original
    list is position 3. *)
Example delete_layers_negative_indices_shift :
  ∃ h1, installed (delete_layers (VRef 1) [-1; -2]) (VRef 1) gpt2_store
          "base_model.h" (VRef 3) h1 [VRef 10; VRef 11; VRef 13].
Proof.
  eexists. split; [vm_compute; reflexivity|].
  eexists. split_and!; [vm_compute; reflexivity|done|vm_compute; reflexivity].
Qed.

(** C10 at failing inputs.  The indices [[-1, -2]] are within bounds both
    for a model of two layers and for a model of five, and address the
    last two layers.  On the two layers [delete_layers] raises
    [IndexError] and the model keeps its list.  On the five layers it is
    entered, but the list it installs has lost the layers at positions 4
    and 2: the layer at position 3, which [-2] addresses, is still
    there. *)
Theorem delete_layers_negative_indices_miss :
  (located (VRef 1) gpt2_store2 "base_model.h" (VRef 3) [VRef 10; VRef 11]
   ∧ Forall (λ i, - 2 ≤ i < 0) [-1; -2]
   ∧ refused (delete_layers (VRef 1) [-1; -2]) (VRef 1) gpt2_store2
       "base_model.h" (VRef 3))
  ∧ (located (VRef 1) gpt2_store "base_model.h" (VRef 3)
       [VRef 10; VRef 11; VRef 12; VRef 13; VRef 14]
     ∧ Forall (λ i, - 5 ≤ i < 0) [-1; -2]
     ∧ ∃ h1, installed (delete_layers (VRef 1) [-1; -2]) (VRef 1) gpt2_store
               "base_model.h" (VRef 3) h1 [VRef 10; VRef 11; VRef 13]).
Proof.
  split; split_and!.
  - split; by vm_compute.
  - repeat constructor; lia.
  - destruct (delete_layers_enter_raise (VRef 1) gpt2_store2 "base_model.h" (VRef 3)
                [VRef 10; VRef 11] [-1; -2] IndexError) as (h1 & Henter & Hsub);
      [split; by vm_compute|by vm_compute|].
    eapply refused_of_raise; [split; by vm_compute|exact Henter|exact Hsub].
  - split; by vm_compute.
  - repeat constructor; lia.
  - eexists. split; [vm_compute; reflexivity|].
    eexists. split_and!; [vm_compute; reflexivity|done|vm_compute; reflexivity].
Qed.

(** * Further properties of the module *)

(** ** The key-path resolver *)

(** X1.  [get_key_path] never writes to the store, and when it fails it
    fails with the error of the segment it could not resolve:
    [AttributeError] for a missing name, [TypeError] for indexing what has
    no children, [IndexError] for an index past the end, [ValueError] for
    a segment of digits that are not all decimal. *)
Theorem get_key_path_only_looks_up model key_path h :
  (get_key_path model key_path h).1 = h
  ∧ ∀ e, (get_key_path model key_path h).2 = Raise e →
         e ∈ [AttributeError; TypeError; IndexError; ValueError].
Proof. split; [apply get_key_path_ro|]. intros e. apply walk_raises. Qed.

Lemma split_dot_app p q :
  split_dot (p ++ "." ++ q) = (split_dot p ++ split_dot q)%list.
Proof.
  unfold split_dot. induction p as [|c p IH].
  - change (split_dot_aux ("" ++ "." ++ q))
      with (let '(seg, rest) := split_dot_aux q in ("", seg :: rest)).
    simpl. by destruct (split_dot_aux q).
  - change (split_dot_aux (String c p ++ "." ++ q))
      with (let '(seg, rest) := split_dot_aux (p ++ "." ++ q) in
            if Ascii.eqb c "." then ("", seg :: rest) else (String c seg, rest)).
    simpl. destruct (split_dot_aux (p ++ "." ++ q)) as [seg rest],
      (split_dot_aux p) as [seg' rest'], (split_dot_aux q) as [segq restq].
    simpl in IH. injection IH as -> ->.
    by destruct (Ascii.eqb c ".").
Qed.

(** X2.  Resolving the concatenation of two paths is resolving the second
    from where the first one leads. *)
Theorem get_key_path_compose model p q h :
  get_key_path model (p ++ "." ++ q) h
  = (do o <- get_key_path model p; get_key_path o q) h.
Proof. unfold get_key_path, bind. by rewrite split_dot_app, walk_app. Qed.

Lemma set_key_path_failure_writes_nothing_aux model key_path value h e :
  (set_key_path_ model key_path value h).2 = Raise e →
  (set_key_path_ model key_path value h).1 = h
  ∧ e ∈ [AttributeError; TypeError; IndexError; ValueError].
Proof.
  destruct (split_dot_snoc key_path) as (prefix & k & Hsplit).
  rewrite (set_key_path_snoc _ _ _ _ _ _ Hsplit).
  rewrite (walk_eq prefix model h).
  destruct (walk model prefix h).2 as [o|e'] eqn:Hwalk.
  - unfold py_setattr. destruct o as [|l]; simpl.
    + intros [= <-]. split; [done|repeat constructor].
    + destruct (has_dict _); simpl; [done|].
      intros [= <-]. split; [done|repeat constructor].
  - simpl. intros [= ->]. split; [done|]. by eapply walk_raises.
Qed.

(** X3.  A call of [set_key_path_] that fails has written nothing, and it
    fails with a lookup error or with the [ValueError] of a segment of
    digits that are not all decimal. *)
Theorem set_key_path_failure_writes_nothing model key_path value h e :
  (set_key_path_ model key_path value h).2 = Raise e →
  (set_key_path_ model key_path value h).1 = h
  ∧ e ∈ [AttributeError; TypeError; IndexError; ValueError].
Proof.
  destruct (split_dot_snoc key_path) as (prefix & k & Hsplit).
  rewrite (set_key_path_snoc _ _ _ _ _ _ Hsplit).
  rewrite (walk_eq prefix model h).
  destruct (walk model prefix h).2 as [o|e'] eqn:Hwalk.
  - unfold py_setattr. destruct o as [|l]; simpl.
    + intros [= <-]. split; [done|repeat constructor].
    + destruct (has_dict _); simpl; [done|].
      intros [= <-]. split; [done|repeat constructor].
  - simpl. intros [= ->]. split; [done|]. by eapply walk_raises.
Qed.

(** ** Scopes *)

(** X9.  When [assign_key_path] cannot enter - the path does not resolve,
    or there is nothing to set the last segment on - the store is as it
    was, the error is a lookup error or the [ValueError] of a segment of
    digits that are not all decimal, and the body of the [with] statement
    is not run. *)
Theorem assign_key_path_failed_entry {A} model key_path value h h1 e
    (body : val → Py A) :
  cm_enter (assign_key_path model key_path value) h = (h1, Raise e) →
  h1 = h
  ∧ e ∈ [AttributeError; TypeError; IndexError; ValueError]
  ∧ with_ (assign_key_path model key_path value) body h = (h, Raise e).
Proof.
  intros Henter.
  assert (h1 = h ∧ e ∈ [AttributeError; TypeError; IndexError; ValueError])
    as [-> He].
  { revert Henter. simpl. unfold bind, ret.
    pose proof (get_key_path_ro model key_path h) as Hro.
    destruct (get_key_path model key_path h) as [h' [o|e']] eqn:Hget;
      simpl in *; subst.
    - destruct (set_key_path_ model key_path value h) as [h2 [[]|e']] eqn:Hset;
        [done|]. intros [= <- <-].
      destruct (set_key_path_failure_writes_nothing_aux model key_path value h e')
        as [Hsame He]; [by rewrite Hset|].
      by rewrite Hset in Hsame.
    - intros [= <- <-]. split; [done|].
      apply (walk_raises (split_dot key_path) model h). unfold get_key_path in Hget.
      by rewrite Hget. }
  split_and!; [done..|]. by apply with_enter_raise.
Qed.

(** The builders only add an object to the store. *)
Lemma build_deleted_extends indices layer_list h :
  h ⊆ (build_deleted indices layer_list h).1.
Proof.
  destruct (py_iter layer_list h).2 as [layers|e] eqn:Hit.
  - rewrite (build_deleted_eq _ _ layers) by done. simpl.
    apply insert_subseteq, fresh_unallocated.
  - unfold build_deleted, bind. pose proof (py_iter_ro layer_list h) as Hro.
    by destruct (py_iter layer_list h) as [h' [xs|e']]; simpl in *; simplify_eq.
Qed.

Lemma build_replaced_extends indices replacements layer_list h :
  h ⊆ (build_replaced indices replacements layer_list h).1.
Proof.
  destruct (py_iter layer_list h).2 as [layers|e] eqn:Hit.
  - rewrite (build_replaced_eq _ _ _ layers) by done. simpl.
    apply insert_subseteq, fresh_unallocated.
  - unfold build_replaced, bind. pose proof (py_iter_ro layer_list h) as Hro.
    by destruct (py_iter layer_list h) as [h' [xs|e']]; simpl in *; simplify_eq.
Qed.

Lemma comprehension_getitem_ro layer_list indices : ∀ h,
  (comprehension indices (λ i, py_getitem layer_list i) h).1 = h.
Proof.
  induction indices as [|i indices IH]; intros h; [done|].
  simpl. unfold bind. pose proof (py_getitem_ro layer_list i h) as Hro.
  destruct (py_getitem layer_list i h) as [h' [v|e]]; simpl in *; subst; [|done].
  specialize (IH h).
  by destruct (comprehension indices _ h) as [h' [vs|e]]; simpl in *; subst.
Qed.

Lemma build_permuted_extends indices layer_list h :
  h ⊆ (build_permuted indices layer_list h).1.
Proof.
  unfold build_permuted, bind.
  pose proof (comprehension_getitem_ro layer_list indices h) as Hro.
  destruct (comprehension indices _ h) as [h' [vs|e]]; simpl in *; subst; [|done].
  apply insert_subseteq, fresh_unallocated.
Qed.

Lemma scoped_layers_build model op h :
  (∀ key_path value, op ≠ AssignKeyPath key_path value) →
  ∃ build, cm_enter (scoped model op) h = install_built model build h
           ∧ ∀ layer_list h', h' ⊆ (build layer_list h').1.
Proof.
  intros Hop. destruct op as [kp v|indices|indices|indices replacements].
  - by destruct (Hop kp v).
  - eexists. split; [apply delete_layers_enter|]. apply build_deleted_extends.
  - eexists. split; [apply permute_layers_enter|]. apply build_permuted_extends.
  - eexists. split; [apply replace_layers_enter|]. apply build_replaced_extends.
Qed.

(** Writing back what was at a plain path also works after objects have
    been added to the store in between. *)
Lemma set_key_path_undo_later model key_path prefix k old v h h1 hb :
  split_dot key_path = (prefix ++ [k])%list → (k ∉ prefix) → isdigit k = false →
  (get_key_path model key_path h).2 = Ok old →
  set_key_path_ model key_path v h = (h1, Ok tt) →
  h1 ⊆ hb →
  ∃ h3, set_key_path_ model key_path old hb = (h3, Ok tt)
        ∧ h ⊆ h3
        ∧ get_key_path model key_path h3 = (h3, Ok old).
Proof.
  intros Hsplit Hfresh Hk Hget Hset Hsub.
  destruct (set_key_path_inv _ _ _ _ _ _ _ Hsplit Hset) as (l & Hwalk & Hd & ->).
  rewrite (get_key_path_snoc _ _ _ _ _ Hsplit), Hwalk in Hget.
  unfold get_value_for_key in Hget. rewrite Hk in Hget.
  apply py_getattr_has_dict in Hget as (l' & [= <-] & _ & Hattr).
  assert (deref hb l = deref (store_attr l k v h) l) as Hl.
  { eapply deref_weaken; [done|]. unfold store_attr at 1.
    rewrite lookup_insert_eq. f_equal. by rewrite deref_store_attr, decide_True. }
  assert (walk model prefix hb = (hb, Ok (VRef l))) as Hwalkb.
  { apply (walk_weaken _ (store_attr l k v h)); [done|].
    by rewrite walk_store_attr, Hwalk. }
  assert (has_dict (cls (deref hb l)) = true) as Hdb
    by (by rewrite Hl, cls_store_attr).
  destruct (set_key_path_plain model key_path prefix k old l hb)
    as (Hsetb & Hgetb & _); [done..|].
  exists (store_attr l k old hb). split_and!; [done| |done].
  apply map_subseteq_spec. intros i ob Hi. unfold store_attr at 1.
  destruct (decide (i = l)) as [->|Hne].
  - rewrite lookup_insert_eq. f_equal. rewrite Hl, deref_store_attr, decide_True by done.
    simpl. rewrite insert_insert_eq, (insert_id _ _ _ Hattr), object_eta.
    by apply deref_allocated.
  - rewrite lookup_insert_ne by done. eapply lookup_weaken; [|done].
    unfold store_attr. by rewrite lookup_insert_ne.
Qed.

Lemma layer_scope_restores_aux {A} model op h h1 list_path layer_list y
    (body : val → Py A) :
  (∀ key_path value, op ≠ AssignKeyPath key_path value) →
  cm_enter (scoped model op) h = (h1, Ok ((list_path, layer_list), y)) →
  h1 ⊆ (body y h1).1 →
  ∃ h3, with_ (scoped model op) body h = (h3, (body y h1).2)
        ∧ h ⊆ h3
        ∧ get_key_path model list_path h3 = (h3, Ok layer_list).
Proof.
  intros Hop Henter Hbody.
  destruct (scoped_layers_build model op h Hop) as (build & Hb & Hext).
  pose proof Henter as Hinst. rewrite Hb in Hinst.
  apply install_built_inv in Hinst
    as (lp & ll & new & ha & [= <- <-] & -> & Hloc & Hbuild & Hset).
  destruct (get_transformer_layers_ok model h list_path layer_list)
    as (prefix & k & Hsplit & Hfresh & Hk & Hget); [by rewrite Hloc|].
  assert (h ⊆ ha) as Hsub.
  { specialize (Hext layer_list h). by rewrite Hbuild in Hext. }
  assert (get_key_path model list_path ha = (ha, Ok layer_list)) as Hget'.
  { apply (walk_weaken _ h); [done|]. unfold get_key_path in Hget. by rewrite Hget. }
  destruct (set_key_path_undo_later model list_path prefix k layer_list new ha h1
              (body model h1).1) as (h3 & Hexit & Hsub3 & Hget3);
    [done..|by rewrite Hget'|done|done|].
  exists h3. split_and!; [|by etrans|done].
  rewrite (with_enter_ok _ _ _ _ _ _ Henter), cm_exit_scoped. unfold try_finally.
  destruct (body model h1) as [h2 r]. simpl in *. by rewrite Hexit.
Qed.

(** X11.  A layer operation undoes itself completely: once the scope of
    [delete_layers], [permute_layers] or [replace_layers] is entered, for
    every body that at most adds objects to the store, the [with]
    statement ends with the outcome of the body, every object the store
    held before entry is exactly as it was, and the path of the layer
    list resolves to the original list. *)
Theorem layer_scope_restores_model {A} model op h h1 list_path layer_list y
    (body : val → Py A) :
  (∀ key_path value, op ≠ AssignKeyPath key_path value) →
  cm_enter (scoped model op) h = (h1, Ok ((list_path, layer_list), y)) →
  h1 ⊆ (body y h1).1 →
  ∃ h3, with_ (scoped model op) body h = (h3, (body y h1).2)
        ∧ unmodified h h3
        ∧ get_key_path model list_path h3 = (h3, Ok layer_list).
Proof.
  intros Hop Henter Hbody.
  destruct (scoped_layers_build model op h Hop) as (build & Hb & Hext).
  pose proof Henter as Hinst. rewrite Hb in Hinst.
  apply install_built_inv in Hinst
    as (lp & ll & new & ha & [= <- <-] & -> & Hloc & Hbuild & Hset).
  destruct (get_transformer_layers_ok model h list_path layer_list)
    as (prefix & k & Hsplit & Hfresh & Hk & Hget); [by rewrite Hloc|].
  assert (h ⊆ ha) as Hsub.
  { specialize (Hext layer_list h). by rewrite Hbuild in Hext. }
  assert (get_key_path model list_path ha = (ha, Ok layer_list)) as Hget'.
  { apply (walk_weaken _ h); [done|]. unfold get_key_path in Hget. by rewrite Hget. }
  destruct (set_key_path_undo_later model list_path prefix k layer_list new ha h1
              (body model h1).1) as (h3 & Hexit & Hsub3 & Hget3);
    [done..|by rewrite Hget'|done|done|].
  exists h3. split_and!; [|by etrans|done].
  rewrite (with_enter_ok _ _ _ _ _ _ Henter), cm_exit_scoped. unfold try_finally.
  destruct (body model h1) as [h2 r]. simpl in *. by rewrite Hexit.
Qed.

Lemma install_built_raise_extends model build h e :
  (∀ layer_list h', h' ⊆ (build layer_list h').1) →
  (install_built model build h).2 = Raise e →
  h ⊆ (install_built model build h).1.
Proof.
  intros Hext. unfold install_built, bind.
  pose proof (get_transformer_layers_ro model h) as Hro.
  destruct (get_transformer_layers model h) as [h' [[lp ll]|e']]; simpl in *; subst;
    [|done].
  specialize (Hext ll h).
  destruct (build ll h) as [ha [new|e']]; simpl in *; [|done].
  destruct (set_key_path_ model lp new ha) as [h1 [[]|e']] eqn:Hset; simpl; [done|].
  intros _.
  destruct (set_key_path_failure_writes_nothing_aux model lp new ha e') as [Hsame _];
    [by rewrite Hset|]. rewrite Hset in Hsame. simpl in Hsame. by subst.
Qed.

(** ** The locators *)

Lemma layers_keys_path c ks :
  layers_keys c = Some ks ↔
  c ∈ recognized_classes ∧ ks = tail (split_dot (layers_path c)).
Proof.
  unfold recognized_classes. split.
  - destruct c; intros [= <-]; (split; [repeat constructor|done]).
  - intros [Hin ->].
    repeat (apply elem_of_cons in Hin as [->|Hin]; [done|]). inversion Hin.
Qed.

Lemma norm_keys_path c ks :
  norm_keys c = Some ks ↔
  c ∈ recognized_classes ∧ ks = split_dot (norm_path c).
Proof.
  unfold recognized_classes. split.
  - destruct c; intros [= <-]; (split; [repeat constructor|done]).
  - intros [Hin ->].
    repeat (apply elem_of_cons in Hin as [->|Hin]; [done|]). inversion Hin.
Qed.

Lemma layers_path_join c :
  c ∈ recognized_classes →
  join_dot ("base_model" :: tail (split_dot (layers_path c))) = layers_path c
  ∧ split_dot (layers_path c) = "base_model" :: tail (split_dot (layers_path c)).
Proof.
  unfold recognized_classes. intros Hin.
  repeat (apply elem_of_cons in Hin as [->|Hin]; [done|]). inversion Hin.
Qed.

Lemma get_transformer_layers_returns_iff model h list_path layer_list :
  (get_transformer_layers model h).2 = Ok (list_path, layer_list)
  ↔ ∃ b c, handle model h = Some b ∧ class_of b h = Some c
           ∧ c ∈ recognized_classes
           ∧ list_path = layers_path c
           ∧ (get_key_path model list_path h).2 = Ok layer_list.
Proof.
  rewrite get_transformer_layers_eq. split.
  - destruct (handle model h) as [b|]; [|done].
    destruct (class_of b h) as [c|] eqn:Hc; [|done]. cbn [mbind option_bind].
    destruct (layers_keys c) as [ks|] eqn:Hks; [|done].
    apply layers_keys_path in Hks as [Hin ->].
    destruct (layers_path_join c Hin) as [Hjoin Hsplit].
    cbn [snd]. rewrite Hjoin.
    destruct (walk model _ h).2 as [ll|e] eqn:Hwalk; [|done].
    intros [= <- <-]. exists b, c. split_and!; [done..|].
    unfold get_key_path. by rewrite Hsplit.
  - intros (b & c & -> & Hc & Hin & -> & Hget). rewrite Hc. cbn [mbind option_bind].
    destruct (layers_path_join c Hin) as [Hjoin Hsplit].
    rewrite (proj2 (layers_keys_path c _) (conj Hin eq_refl)).
    cbn [snd]. rewrite Hjoin. unfold get_key_path in Hget.
    rewrite Hsplit in Hget. by rewrite Hget.
Qed.

(** X12.  [get_transformer_layers] returns exactly when the model has a
    [base_model] handle of a recognized family and the key path of that
    family resolves from the model; it returns that key path together with
    what the path resolves to. *)
Theorem get_transformer_layers_returns model h list_path layer_list :
  (get_transformer_layers model h).2 = Ok (list_path, layer_list)
  ↔ ∃ b c, handle model h = Some b ∧ class_of b h = Some c
           ∧ c ∈ recognized_classes
           ∧ list_path = layers_path c
           ∧ (get_key_path model list_path h).2 = Ok layer_list.
Proof.
  rewrite get_transformer_layers_eq. split.
  - destruct (handle model h) as [b|]; [|done].
    destruct (class_of b h) as [c|] eqn:Hc; [|done]. cbn [mbind option_bind].
    destruct (layers_keys c) as [ks|] eqn:Hks; [|done].
    apply layers_keys_path in Hks as [Hin ->].
    destruct (layers_path_join c Hin) as [Hjoin Hsplit].
    cbn [snd]. rewrite Hjoin.
    destruct (walk model _ h).2 as [ll|e] eqn:Hwalk; [|done].
    intros [= <- <-]. exists b, c. split_and!; [done..|].
    unfold get_key_path. by rewrite Hsplit.
  - intros (b & c & -> & Hc & Hin & -> & Hget). rewrite Hc. cbn [mbind option_bind].
    destruct (layers_path_join c Hin) as [Hjoin Hsplit].
    rewrite (proj2 (layers_keys_path c _) (conj Hin eq_refl)).
    cbn [snd]. rewrite Hjoin. unfold get_key_path in Hget.
    rewrite Hsplit in Hget. by rewrite Hget.
Qed.

(** X13.  [get_final_norm] returns exactly when the model has a
    [base_model] handle of a recognized family and the key path of that
    family's norm resolves, from the base model, to an instance of
    [LayerNorm], which is what it returns; it fails its assertion exactly
    when that path resolves to an object of another class. *)
Theorem get_final_norm_returns model h :
  (∀ norm,
     (get_final_norm model h).2 = Ok norm
     ↔ ∃ b c, handle model h = Some b ∧ class_of b h = Some c
              ∧ c ∈ recognized_classes
              ∧ (get_key_path b (norm_path c) h).2 = Ok norm
              ∧ class_of norm h = Some LayerNorm)
  ∧ ((get_final_norm model h).2 = Raise AssertionError
     ↔ ∃ b c norm other,
         handle model h = Some b ∧ class_of b h = Some c
         ∧ c ∈ recognized_classes
         ∧ (get_key_path b (norm_path c) h).2 = Ok norm
         ∧ class_of norm h = Some other ∧ other ≠ LayerNorm).
Proof.
  rewrite get_final_norm_eq. split; [intros norm|]; split.
  - destruct (handle model h) as [b|]; [|done].
    destruct (class_of b h) as [c|] eqn:Hc; [|done]. cbn [mbind option_bind].
    destruct (norm_keys c) as [ks|] eqn:Hks; [|done].
    apply norm_keys_path in Hks as [Hin ->]. cbn [snd].
    destruct (walk b _ h).2 as [[|l]|e] eqn:Hwalk; [done| |done].
    case_bool_decide as Hcls; [|done]. intros [= <-].
    exists b, c. by split_and!.
  - intros (b & c & -> & Hc & Hin & Hget & Hcls). rewrite Hc. cbn [mbind option_bind].
    rewrite (proj2 (norm_keys_path c _) (conj Hin eq_refl)). cbn [snd].
    unfold get_key_path in Hget. rewrite Hget.
    destruct norm as [|l]; [done|]. by rewrite bool_decide_eq_true_2.
  - destruct (handle model h) as [b|]; [|done].
    destruct (class_of b h) as [c|] eqn:Hc; [|done]. cbn [mbind option_bind].
    destruct (norm_keys c) as [ks|] eqn:Hks; [|done].
    apply norm_keys_path in Hks as [Hin ->]. cbn [snd].
    destruct (walk b _ h).2 as [[|l]|e] eqn:Hwalk; [done| |].
    + case_bool_decide as Hcls; [done|]. intros _.
      exists b, c, (VRef l), (cls (deref h l)). split_and!; [done..|].
      intros Heq. apply Hcls. simpl. by rewrite Heq.
    + intros [= ->]. apply walk_raises in Hwalk.
      repeat (apply elem_of_cons in Hwalk as [Hwalk|Hwalk]; [done|]).
      inversion Hwalk.
  - intros (b & c & norm & other & -> & Hc & Hin & Hget & Hcls & Hne).
    rewrite Hc. cbn [mbind option_bind].
    rewrite (proj2 (norm_keys_path c _) (conj Hin eq_refl)). cbn [snd].
    unfold get_key_path in Hget. rewrite Hget.
    destruct norm as [|l]; [done|]. rewrite bool_decide_eq_false_2; [done|].
    rewrite Hcls. by intros [= ->].
Qed.

(** ** Scopes within scopes, and the permanent permutation *)

Lemma with_layer_scope_extends {A} model op (body : val → Py A) h :
  (∀ key_path value, op ≠ AssignKeyPath key_path value) →
  (∀ m h', h' ⊆ (body m h').1) →
  h ⊆ (with_ (scoped model op) body h).1.
Proof.
  intros Hop Hbody.
  destruct (cm_enter (scoped model op) h) as [h1 [[[lp ll] y]|e]] eqn:Henter.
  - destruct (layer_scope_restores_aux model op h h1 lp ll y body Hop Henter)
      as (h3 & Hwith & Hsub & _); [apply Hbody|]. by rewrite Hwith.
  - rewrite (with_enter_raise _ _ _ _ _ Henter). simpl.
    destruct (scoped_layers_build model op h Hop) as (build & Hb & Hext).
    rewrite Hb in Henter.
    pose proof (install_built_raise_extends model build h e Hext) as Hsub.
    rewrite Henter in Hsub. by apply Hsub.
Qed.

(** X14.  Layer scopes nest: with a second layer operation entered inside
    the scope of a first one, and an innermost body that at most adds
    objects to the store, leaving both scopes gives the outcome of the
    inner [with] statement, leaves every object the store held before the
    outer entry exactly as it was, and the path of the layer list resolves
    to the original list. *)
Theorem layer_scopes_nest {A} model op1 op2 h h1 list_path layer_list y
    (body : val → Py A) :
  (∀ key_path value, op1 ≠ AssignKeyPath key_path value) →
  (∀ key_path value, op2 ≠ AssignKeyPath key_path value) →
  cm_enter (scoped model op1) h = (h1, Ok ((list_path, layer_list), y)) →
  (∀ m h', h' ⊆ (body m h').1) →
  ∃ h3, with_ (scoped model op1) (λ m, with_ (scoped m op2) body) h
        = (h3, (with_ (scoped y op2) body h1).2)
        ∧ unmodified h h3
        ∧ get_key_path model list_path h3 = (h3, Ok layer_list).
Proof.
  intros Hop1 Hop2 Henter Hbody.
  apply (layer_scope_restores_aux model op1 h h1 list_path layer_list y
           (λ m, with_ (scoped m op2) body) Hop1 Henter).
  by apply with_layer_scope_extends.
Qed.

Lemma layers_path_last c prefix k :
  c ∈ recognized_classes →
  split_dot (layers_path c) = (prefix ++ [k])%list → k ≠ "base_model".
Proof.
  unfold recognized_classes. intros Hin.
  repeat (apply elem_of_cons in Hin as [->|Hin];
          [intros Hsplit;
           first [ apply (app_inj_tail ["base_model"; "decoder"] prefix "layers" k)
                     in Hsplit as [_ <-]
                 | apply (app_inj_tail ["base_model"] prefix "layers" k)
                     in Hsplit as [_ <-]
                 | apply (app_inj_tail ["base_model"] prefix "h" k)
                     in Hsplit as [_ <-] ]; done|]).
  inversion Hin.
Qed.

Lemma handle_allocated model h b :
  handle model h = Some b → ∃ l ob, model = VRef l ∧ h !! l = Some ob.
Proof.
  unfold handle, deref. destruct model as [|l]; [done|].
  destruct (h !! l) as [ob|] eqn:Hl; [intros _; exists l, ob; by split|].
  simpl. by rewrite lookup_empty.
Qed.

Lemma recognized_allocated b h c :
  class_of b h = Some c → c ∈ recognized_classes →
  ∃ l ob, b = VRef l ∧ h !! l = Some ob.
Proof.
  unfold class_of, deref, recognized_classes. destruct b as [|l]; [done|].
  destruct (h !! l) as [ob|] eqn:Hl; [intros _ _; exists l, ob; by split|].
  simpl. intros [= <-] Hin.
  repeat (apply elem_of_cons in Hin as [Hin|Hin]; [done|]). inversion Hin.
Qed.

Lemma get_transformer_layers_pair model h :
  get_transformer_layers model h = (h, (get_transformer_layers model h).2).
Proof.
  rewrite <- (get_transformer_layers_ro model h) at 2.
  by destruct (get_transformer_layers model h).
Qed.

(** What the locator reads of the model survives the installation of a
    new layer list. *)
Lemma located_installed model h list_path layer_list layers ha new_list h1 new :
  located model h list_path layer_list layers →
  h ⊆ ha →
  set_key_path_ model list_path new_list ha = (h1, Ok tt) →
  py_iter new_list ha = (ha, Ok new) →
  located model h1 list_path new_list new.
Proof.
  intros [Hloc Hit] Hsub Hset Hnew.
  destruct (proj1 (get_transformer_layers_returns_iff model h list_path layer_list))
    as (b & c & Hb & Hc & Hin & -> & Hget); [by rewrite Hloc|].
  destruct (get_transformer_layers_ok model h (layers_path c) layer_list)
    as (prefix & k & Hsplit & Hfresh & Hk & _); [by rewrite Hloc|].
  pose proof (layers_path_last c prefix k Hin Hsplit) as Hkne.
  destruct (set_key_path_inv _ _ _ _ _ _ _ Hsplit Hset) as (l & Hwalk & Hd & ->).
  destruct (set_key_path_plain model (layers_path c) prefix k new_list l ha)
    as (_ & Hget1 & _); [done..|].
  destruct (handle_allocated model h b Hb) as (lm & obm & -> & Hlm).
  destruct (recognized_allocated b h c Hc Hin) as (lb & obb & -> & Hlb).
  split.
  - rewrite get_transformer_layers_pair. f_equal.
    apply get_transformer_layers_returns_iff. exists (VRef lb), c.
    split_and!; [| |done|done|by rewrite Hget1].
    + revert Hb. unfold handle.
      rewrite cls_store_attr, attrs_store_attr_ne by done.
      by rewrite (deref_weaken h ha lm obm), (deref_allocated h lm obm).
    + revert Hc. unfold class_of. rewrite cls_store_attr.
      by rewrite (deref_weaken h ha lb obb), (deref_allocated h lb obb).
  - rewrite py_iter_store_attr. by rewrite Hnew.
Qed.

Lemma py_iter_pair o h : py_iter o h = (h, (py_iter o h).2).
Proof. rewrite <- (py_iter_ro o h) at 2. by destruct (py_iter o h). Qed.

Lemma installed_located model build h h1 list_path layer_list layers new_list new :
  (∀ ll h', h' ⊆ (build ll h').1) →
  located model h list_path layer_list layers →
  install_built model build h = (h1, Ok ((list_path, layer_list), model)) →
  get_key_path model list_path h1 = (h1, Ok new_list) →
  py_iter new_list h1 = (h1, Ok new) →
  located model h1 list_path new_list new.
Proof.
  intros Hext Hloc Hinst Hget1 Hnew.
  apply install_built_inv in Hinst
    as (lp & ll & nl & ha & [= <- <-] & _ & Hgtl & Hbuild & Hset).
  destruct (get_transformer_layers_ok model h list_path layer_list)
    as (prefix & k & Hsplit & Hfresh & Hk & _); [by rewrite Hgtl|].
  destruct (set_key_path_restorable _ _ _ _ _ _ _ Hsplit Hfresh Hk Hset)
    as [_ Hget1'].
  assert (nl = new_list) as -> by congruence.
  apply (located_installed model h list_path layer_list layers ha); [done| |done|].
  - specialize (Hext layer_list h). by rewrite Hbuild in Hext.
  - destruct (set_key_path_inv _ _ _ _ _ _ _ Hsplit Hset) as (l & _ & _ & ->).
    rewrite py_iter_store_attr in Hnew. injection Hnew as Hnew.
    by rewrite py_iter_pair, Hnew.
Qed.

(** X15.  Inside the scope of a layer operation the locator finds the
    installed list: [get_transformer_layers] returns the same path as
    before entry, now with the new list, so that a further layer operation
    on the model acts on the installed layers. *)
Theorem locator_finds_installed_list model op h h1 list_path layer_list layers new :
  (∀ key_path value, op ≠ AssignKeyPath key_path value) →
  located model h list_path layer_list layers →
  installed (scoped model op) model h list_path layer_list h1 new →
  ∃ new_list, located model h1 list_path new_list new ∧ new_list ≠ layer_list.
Proof.
  intros Hop Hloc (Henter & new_list & Hget1 & Hne & Hnew).
  destruct (scoped_layers_build model op h Hop) as (build & Hb & Hext).
  rewrite Hb in Henter. exists new_list. split; [|done].
  by eapply installed_located.
Qed.

Lemma permute_layers__install model indices h :
  permute_layers_ model indices h =
  match install_built model (build_permuted indices) h with
  | (h1, Ok _) => (h1, Ok tt)
  | (h1, Raise e) => (h1, Raise e)
  end.
Proof.
  unfold permute_layers_, install_built, build_permuted, bind, ret.
  destruct (get_transformer_layers model h) as [h1 [[lp ll]|e]]; [|done].
  destruct (comprehension _ _ h1) as [h2 [permuted|e]]; [|done].
  destruct (new_ModuleList permuted h2) as [h3 [nl|e]]; [|done].
  by destruct (set_key_path_ model lp nl h3) as [h4 [[]|e]].
Qed.

Lemma permute_install_aux model h list_path layer_list layers indices :
  located model h list_path layer_list layers →
  Forall (in_bounds (length layers)) indices →
  ∃ h1 new_list new,
    install_built model (build_permuted indices) h
    = (h1, Ok ((list_path, layer_list), model))
    ∧ located model h1 list_path new_list new
    ∧ new_list ≠ layer_list
    ∧ length new = length indices
    ∧ (∀ k i, indices !! k = Some i → new !! k = seq_at layers i)
    ∧ py_iter layer_list h1 = (h1, Ok layers).
Proof.
  intros Hloc Hbounds.
  destruct (permute_layers_enter_ok model h list_path layer_list layers indices
              Hloc Hbounds)
    as (h1 & new & (Henter & nl & Hget1 & Hne & Hnew) & Hlen & Hat & Hold & _).
  rewrite permute_layers_enter in Henter.
  exists h1, nl, new. split_and!; [done| |done..].
  eapply installed_located; [apply build_permuted_extends|done..].
Qed.

(** X16.  [permute_layers_] with every index within bounds installs, for
    good, a new list with [new[k] = original[indices[k]]] at the path of
    the layer list: afterwards the locator returns the new list, and the
    original list object still holds its layers. *)
Theorem permute_layers__installs model h list_path layer_list layers indices :
  located model h list_path layer_list layers →
  Forall (in_bounds (length layers)) indices →
  ∃ h1 new_list new,
    permute_layers_ model indices h = (h1, Ok tt)
    ∧ located model h1 list_path new_list new
    ∧ new_list ≠ layer_list
    ∧ length new = length indices
    ∧ (∀ k i, indices !! k = Some i → new !! k = seq_at layers i)
    ∧ py_iter layer_list h1 = (h1, Ok layers).
Proof.
  intros Hloc Hbounds.
  destruct (permute_install_aux model h list_path layer_list layers indices
              Hloc Hbounds) as (h1 & nl & new & Hinst & Hrest).
  exists h1, nl, new. split; [|done].
  by rewrite permute_layers__install, Hinst.
Qed.

(** X17.  Two permanent permutations compose: after [permute_layers_]
    with [first] and then with [second], the layer at position [k] is the
    original layer at [first[second[k]]]. *)
Theorem permute_layers__compose model h list_path layer_list layers first second :
  located model h list_path layer_list layers →
  Forall (in_bounds (length layers)) first →
  Forall (in_bounds (length first)) second →
  ∃ h2 new_list new,
    (permute_layers_ model first ;;; permute_layers_ model second) h = (h2, Ok tt)
    ∧ located model h2 list_path new_list new
    ∧ length new = length second
    ∧ ∀ k i, second !! k = Some i →
             ∃ j, seq_at first i = Some j ∧ new !! k = seq_at layers j.
Proof.
  intros Hloc Hfirst Hsecond.
  destruct (permute_install_aux model h list_path layer_list layers first
              Hloc Hfirst) as (h1 & nl1 & new1 & Hinst1 & Hloc1 & _ & Hlen1 & Hat1 & _).
  rewrite <- Hlen1 in Hsecond.
  destruct (permute_install_aux model h1 list_path nl1 new1 second
              Hloc1 Hsecond) as (h2 & nl2 & new2 & Hinst2 & Hloc2 & _ & Hlen2 & Hat2 & _).
  exists h2, nl2, new2. split_and!; [|done..|].
  - unfold bind. rewrite permute_layers__install, Hinst1.
    by rewrite permute_layers__install, Hinst2.
  - intros k i Hk. rewrite (Hat2 k i Hk).
    rewrite Forall_forall in Hsecond.
    assert (in_bounds (length new1) i) as Hi
      by (apply Hsecond; by eapply list_elem_of_lookup_2).
    apply norm_index_bounds in Hi as [p Hp].
    pose proof (norm_index_lt _ _ _ Hp) as Hlt. rewrite Hlen1 in Hlt.
    destruct (lookup_lt_is_Some_2 first p Hlt) as [j Hj].
    exists j. unfold seq_at at 1 2. rewrite Hp. rewrite <- Hlen1, Hp.
    split; [done|]. by apply Hat1.
Qed.

(** X18.  [permute_layers_] given an index out of bounds raises
    [IndexError] and leaves the store exactly as it was: no list is built
    and nothing is installed. *)
Theorem permute_layers__out_of_bounds model h list_path layer_list layers indices i :
  located model h list_path layer_list layers →
  i ∈ indices → ¬ in_bounds (length layers) i →
  permute_layers_ model indices h = (h, Raise IndexError).
Proof.
  intros Hloc Hin Hout. rewrite permute_layers__install.
  rewrite <- permute_layers_enter.
  by rewrite (permute_layers_enter_raise model h list_path layer_list layers
                indices i).
Qed.

(** ** Edge cases of the layer operations *)

(** X19.  With nothing to do, the layer operations still install a new
    list: [delete_layers] with no index, and [replace_layers] with no
    index or no replacement, install a copy that holds all the layers;
    [permute_layers] with no index installs an empty list. *)
Theorem layer_operations_on_empty_input model h list_path layer_list layers :
  located model h list_path layer_list layers →
  (∃ h1, installed (delete_layers model []) model h list_path layer_list h1 layers)
  ∧ (∃ h1, installed (permute_layers model []) model h list_path layer_list h1 [])
  ∧ (∀ replacements,
       ∃ h1, installed (replace_layers model [] replacements) model h list_path
               layer_list h1 layers)
  ∧ (∀ indices,
       ∃ h1, installed (replace_layers model indices []) model h list_path
               layer_list h1 layers).
Proof.
  intros Hloc. split_and!.
  - destruct (delete_layers_enter_ok model h list_path layer_list layers [] layers
                Hloc) as (h1 & Hinst & _); [done|]. by exists h1.
  - destruct (permute_layers_enter_ok model h list_path layer_list layers [] Hloc)
      as (h1 & new & Hinst & Hlen & _); [by constructor|].
    destruct new; [|done]. by exists h1.
  - intros replacements.
    destruct (replace_layers_enter_ok model h list_path layer_list layers []
                replacements Hloc) as (h1 & Hinst & _); [done|]. by exists h1.
  - intros indices.
    destruct (replace_layers_enter_ok model h list_path layer_list layers indices []
                Hloc) as (h1 & Hinst & _); [by rewrite zip_with_nil_r|].
    rewrite zip_with_nil_r in Hinst. by exists h1.
Qed.

Lemma sorted_reverse_pair i : sorted_reverse [i; i] = [i; i].
Proof.
  pose proof (sorted_reverse_perm [i; i]) as Hperm.
  pose proof (Permutation_length Hperm) as Hlen.
  destruct (sorted_reverse [i; i]) as [|a [|b [|c rest]]]; try done.
  assert (a ∈ [i; i]) as Ha by (rewrite <- Hperm; apply list_elem_of_here).
  assert (b ∈ [i; i]) as Hb
    by (rewrite <- Hperm; apply list_elem_of_further, list_elem_of_here).
  repeat (apply elem_of_cons in Ha as [->|Ha]);
    repeat (apply elem_of_cons in Hb as [->|Hb]); try done;
    by (inversion Ha || inversion Hb).
Qed.

(** X20.  An index given twice to [delete_layers] deletes twice at that
    position: the layer at the index and the layer that followed it are
    both gone, the layers before keep their positions and the layers after
    move down by two. *)
Theorem delete_layers_repeated_index model h list_path layer_list layers i :
  located model h list_path layer_list layers →
  (0 ≤ i)%Z → (i + 1 < Z.of_nat (length layers))%Z →
  ∃ h1 new,
    installed (delete_layers model [i; i]) model h list_path layer_list h1 new
    ∧ length new = (length layers - 2)%nat
    ∧ (∀ j, (j < Z.to_nat i)%nat → new !! j = layers !! j)
    ∧ (∀ j, (Z.to_nat i ≤ j)%nat → new !! j = layers !! (j + 2)%nat).
Proof.
  intros Hloc Hlo Hhi.
  assert (length (delete (Z.to_nat i) layers) = (length layers - 1)%nat) as Hlen1.
  { apply length_delete, lookup_lt_is_Some. lia. }
  destruct (delete_layers_enter_ok model h list_path layer_list layers [i; i]
              (delete (Z.to_nat i) (delete (Z.to_nat i) layers)) Hloc)
    as (h1 & Hinst & _).
  { rewrite sorted_reverse_pair. simpl. rewrite norm_index_nonneg by lia.
    by rewrite norm_index_nonneg by lia. }
  eexists h1, _. split_and!; [done| | |].
  - rewrite length_delete; [lia|]. apply lookup_lt_is_Some. lia.
  - intros j Hj. by rewrite !list_lookup_delete_lt.
  - intros j Hj. rewrite !list_lookup_delete_ge by lia. f_equal. lia.
Qed.

(** X21.  When the locator fails, so does every layer operation, with the
    locator's error: the store is as it was and the body of the [with]
    statement is not run; [permute_layers_] fails the same way. *)
Theorem layer_operations_propagate_locator_error {A} model op h e
    (body : val → Py A) :
  (∀ key_path value, op ≠ AssignKeyPath key_path value) →
  (get_transformer_layers model h).2 = Raise e →
  with_ (scoped model op) body h = (h, Raise e)
  ∧ ∀ indices, permute_layers_ model indices h = (h, Raise e).
Proof.
  intros Hop Hloc.
  assert (∀ build, install_built model build h = (h, Raise e)) as Hinst.
  { intros build. unfold install_built, bind.
    rewrite get_transformer_layers_pair, Hloc. done. }
  split.
  - apply with_enter_raise.
    destruct (scoped_layers_build model op h Hop) as (build & -> & _). apply Hinst.
  - intros indices. by rewrite permute_layers__install, Hinst.
Qed.

(** ** Numeric keys when reading *)


End program.

(** * Sample runs

    The statements above hold for every table of digits.  The runs below
    are evaluated with the basic one. *)

Section sample_runs.
#[local] Existing Instance basic_unicode.

Lemma scoped_exit_restores_reference_witness :
  get_key_path (VRef 1) "base_model.h" gpt2_store = (gpt2_store, Ok (VRef 3))
  ∧ ∃ h3, with_ (scoped (VRef 1) (DeleteLayers [1; 3]))
            (λ _, raise (UserError 7) : Py unit) gpt2_store
          = (h3, Raise (UserError 7))
          ∧ get_key_path (VRef 1) "base_model.h" h3 = (h3, Ok (VRef 3)).
Proof.
  eapply (scoped_exit_restores_reference (A := unit) (VRef 1) (DeleteLayers [1; 3])
            (λ _, raise (UserError 7)) gpt2_store _ "base_model.h" (VRef 3) (VRef 1)).
  - vm_compute. reflexivity.
  - intros kp value Hop. discriminate Hop.
  - intros Hres. exact Hres.
Defined.


Lemma out_of_range_index_raises_witness :
  refused (delete_layers (VRef 1) [1; 5]) (VRef 1) gpt2_store "base_model.h" (VRef 3)
  ∧ refused (permute_layers (VRef 1) [0; -6]) (VRef 1) gpt2_store "base_model.h"
      (VRef 3)
  ∧ refused (replace_layers (VRef 1) [0; 7] [VRef 13; VRef 14]) (VRef 1) gpt2_store
      "base_model.h" (VRef 3).
Proof.
  destruct (out_of_range_index_raises (VRef 1) gpt2_store "base_model.h" (VRef 3)
              [VRef 10; VRef 11; VRef 12; VRef 13; VRef 14] gpt2_store_located)
    as (Hdel & Hperm & Hrepl).
  split_and!.
  - apply (Hdel [1; 5] 5); [repeat constructor|]. unfold in_bounds. simpl. lia.
  - apply (Hperm [0; -6] (-6)); [repeat constructor|]. unfold in_bounds. simpl. lia.
  - apply (Hrepl [0; 7] [VRef 13; VRef 14] 7 (VRef 14)); [repeat constructor|].
    unfold in_bounds. simpl. lia.
Defined.

Lemma permute_layers_installs_witness :
  ∃ h1 new,
    installed (permute_layers (VRef 1) [0; 0; 2]) (VRef 1) gpt2_store4
      "base_model.h" (VRef 3) h1 new
    ∧ length new = 3%nat
    ∧ ∀ k i, [0; 0; 2] !! k = Some i
             → new !! k = [VRef 10; VRef 11; VRef 12; VRef 13] !! Z.to_nat i.
Proof.
  apply (permute_layers_installs (VRef 1) gpt2_store4 "base_model.h" (VRef 3)
           [VRef 10; VRef 11; VRef 12; VRef 13] [0; 0; 2] gpt2_store4_located).
  repeat constructor; simpl; lia.
Defined.

Lemma delete_layers_installs_witness :
  ∃ h1,
    installed (delete_layers (VRef 1) [1; 3]) (VRef 1) gpt2_store "base_model.h"
      (VRef 3) h1 [VRef 10; VRef 12; VRef 14]
    ∧ StronglySorted Z.ge (sorted_reverse [1; 3])
    ∧ delete_loop (sorted_reverse [1; 3])
        [VRef 10; VRef 11; VRef 12; VRef 13; VRef 14]
      = ([VRef 10; VRef 12; VRef 14], Ok tt)
    ∧ py_iter (VRef 3) h1 = (h1, Ok [VRef 10; VRef 11; VRef 12; VRef 13; VRef 14]).
Proof.
  apply (delete_layers_installs (VRef 1) gpt2_store "base_model.h" (VRef 3)
           [VRef 10; VRef 11; VRef 12; VRef 13; VRef 14] [1; 3] gpt2_store_located).
  - repeat constructor; intros Hin; repeat (apply elem_of_cons in Hin as [Hin|Hin];
      [discriminate Hin|]); inversion Hin.
  - repeat constructor; simpl; lia.
Defined.

Lemma replace_layers_installs_witness :
  ∃ h1 new,
    installed (replace_layers (VRef 1) [0] [VRef 14]) (VRef 1) gpt2_store4
      "base_model.h" (VRef 3) h1 new
    ∧ length new = 4%nat
    ∧ (∀ k i r p,
         [0] !! k = Some i → [VRef 14] !! k = Some r →
         norm_index 4 i = Some p →
         (∀ k' i' r', (k < k')%nat → [0] !! k' = Some i' →
                      [VRef 14] !! k' = Some r' → norm_index 4 i' ≠ Some p) →
         new !! p = Some r)
    ∧ (∀ p, (∀ k i r, [0] !! k = Some i → [VRef 14] !! k = Some r →
                      norm_index 4 i ≠ Some p) →
            new !! p = [VRef 10; VRef 11; VRef 12; VRef 13] !! p)
    ∧ py_iter (VRef 3) h1 = (h1, Ok [VRef 10; VRef 11; VRef 12; VRef 13])
    ∧ ∃ h3, with_ (replace_layers (VRef 1) [0] [VRef 14])
              (λ _ h', (h', Raise (UserError 1) : result unit)) gpt2_store4
            = (h3, Raise (UserError 1))
            ∧ get_key_path (VRef 1) "base_model.h" h3 = (h3, Ok (VRef 3))
            ∧ py_iter (VRef 3) h3 = (h3, Ok [VRef 10; VRef 11; VRef 12; VRef 13]).
Proof.
  apply (replace_layers_installs (VRef 1) gpt2_store4 "base_model.h" (VRef 3)
           [VRef 10; VRef 11; VRef 12; VRef 13] [0] [VRef 14] (Raise (UserError 1))
           gpt2_store4_located).
  intros [|k] i r Hi Hr; [|discriminate Hi].
  injection Hi as <-. unfold in_bounds. simpl. lia.
Defined.

Lemma negative_index_counts_from_end_witness :
  (∃ h1 new,
     installed (permute_layers (VRef 1) [-1]) (VRef 1) gpt2_store "base_model.h"
       (VRef 3) h1 new
     ∧ ∀ k i, [-1] !! k = Some i → i < 0 →
              new !! k = [VRef 10; VRef 11; VRef 12; VRef 13; VRef 14]
                           !! Z.to_nat (5 + i))
  ∧ (∃ h1 new,
       installed (replace_layers (VRef 1) [-2] [VRef 10]) (VRef 1) gpt2_store
         "base_model.h" (VRef 3) h1 new
       ∧ ∀ k i r, [-2] !! k = Some i → [VRef 10] !! k = Some r → i < 0 →
           (∀ k' i' r', (k < k')%nat → [-2] !! k' = Some i' →
                        [VRef 10] !! k' = Some r' →
                        norm_index 5 i' ≠ norm_index 5 i) →
           new !! Z.to_nat (5 + i) = Some r)
  ∧ ∃ h1, installed (delete_layers (VRef 1) [-1]) (VRef 1) gpt2_store
            "base_model.h" (VRef 3) h1 [VRef 10; VRef 11; VRef 12; VRef 13].
Proof.
  destruct (negative_index_counts_from_end (VRef 1) gpt2_store "base_model.h"
              (VRef 3) [VRef 10; VRef 11; VRef 12; VRef 13; VRef 14]
              gpt2_store_located) as (Hperm & Hrepl & Hdel).
  split_and!.
  - apply (Hperm [-1]). repeat constructor; simpl; lia.
  - apply (Hrepl [-2] [VRef 10]). intros [|k] i r Hi Hr; [|discriminate Hi].
    injection Hi as <-. unfold in_bounds. simpl. lia.
  - apply (Hdel (-1)). simpl. lia.
Defined.

Lemma get_key_path_only_looks_up_witness :
  (get_key_path (VRef 1) "xs.²" list_store).1 = list_store
  ∧ ValueError ∈ [AttributeError; TypeError; IndexError; ValueError].
Proof.
  destruct (get_key_path_only_looks_up (VRef 1) "xs.²" list_store) as [Hro Hraise].
  split; [exact Hro|]. apply Hraise. vm_compute. reflexivity.
Defined.

Lemma set_key_path_failure_writes_nothing_witness :
  (set_key_path_ (VRef 1) "xs.0" (VRef 11) list_store).1 = list_store
  ∧ AttributeError ∈ [AttributeError; TypeError; IndexError; ValueError].
Proof.
  apply (set_key_path_failure_writes_nothing (VRef 1) "xs.0" (VRef 11) list_store).
  vm_compute. reflexivity.
Defined.

Lemma assign_key_path_failed_entry_witness :
  list_store = list_store
  ∧ AttributeError ∈ [AttributeError; TypeError; IndexError; ValueError]
  ∧ with_ (assign_key_path (VRef 1) "xs.0" (VRef 11)) (λ _, ret tt) list_store
    = (list_store, Raise AttributeError).
Proof.
  apply (assign_key_path_failed_entry (A := unit) (VRef 1) "xs.0" (VRef 11) list_store
           list_store AttributeError (λ _, ret tt)).
  vm_compute. reflexivity.
Defined.

Lemma layer_scope_restores_model_witness :
  ∃ h3, with_ (scoped (VRef 1) (DeleteLayers [1; 3]))
          (λ _, raise (UserError 5) : Py unit) gpt2_store
        = (h3, Raise (UserError 5))
        ∧ unmodified gpt2_store h3
        ∧ get_key_path (VRef 1) "base_model.h" h3 = (h3, Ok (VRef 3)).
Proof.
  eapply (layer_scope_restores_model (A := unit) (VRef 1) (DeleteLayers [1; 3])
            gpt2_store _ "base_model.h" (VRef 3) (VRef 1)
            (λ _, raise (UserError 5))).
  - intros key_path value Hop. discriminate Hop.
  - vm_compute. reflexivity.
  - reflexivity.
Defined.

Lemma get_transformer_layers_returns_witness :
  (get_transformer_layers (VRef 1) opt_store).2
  = Ok ("base_model.decoder.layers", VRef 5).
Proof.
  apply (get_transformer_layers_returns (VRef 1) opt_store).
  exists (VRef 2), OPTModel. split_and!; [reflexivity..| |reflexivity| ].
  - unfold recognized_classes. repeat constructor.
  - vm_compute. reflexivity.
Defined.

Lemma get_final_norm_returns_witness :
  (get_final_norm (VRef 1) gpt2_store).2 = Ok (VRef 4).
Proof.
  apply (proj1 (get_final_norm_returns (VRef 1) gpt2_store) (VRef 4)).
  exists (VRef 2), GPT2Model. split_and!; [reflexivity..| | |reflexivity].
  - unfold recognized_classes. repeat constructor.
  - vm_compute. reflexivity.
Defined.

Lemma layer_scopes_nest_witness :
  ∃ h3, with_ (scoped (VRef 1) (PermuteLayers [4; 3; 2]))
          (λ m, with_ (scoped m (DeleteLayers [0])) (λ _, raise (UserError 9) : Py unit))
          gpt2_store
        = (h3, Raise (UserError 9))
        ∧ unmodified gpt2_store h3
        ∧ get_key_path (VRef 1) "base_model.h" h3 = (h3, Ok (VRef 3)).
Proof.
  apply (layer_scopes_nest (A := unit) (VRef 1) (PermuteLayers [4; 3; 2])
           (DeleteLayers [0]) gpt2_store
           (cm_enter (scoped (VRef 1) (PermuteLayers [4; 3; 2])) gpt2_store).1
           "base_model.h" (VRef 3) (VRef 1) (λ _, raise (UserError 9))).
  - intros key_path value Hop. discriminate Hop.
  - intros key_path value Hop. discriminate Hop.
  - vm_compute. reflexivity.
  - intros m h'. reflexivity.
Defined.

Lemma locator_finds_installed_list_witness :
  ∃ new_list,
    located (VRef 1)
      (cm_enter (scoped (VRef 1) (PermuteLayers [0; 0; 2])) gpt2_store4).1
      "base_model.h" new_list [VRef 10; VRef 10; VRef 12]
    ∧ new_list ≠ VRef 3.
Proof.
  apply (locator_finds_installed_list (VRef 1) (PermuteLayers [0; 0; 2]) gpt2_store4
           _ "base_model.h" (VRef 3) [VRef 10; VRef 11; VRef 12; VRef 13]).
  - intros key_path value Hop. discriminate Hop.
  - exact gpt2_store4_located.
  - split; [vm_compute; reflexivity|].
    eexists. split_and!; [vm_compute; reflexivity|done|vm_compute; reflexivity].
Defined.

Lemma permute_layers__installs_witness :
  ∃ h1 new_list new,
    permute_layers_ (VRef 1) [4; -5] gpt2_store = (h1, Ok tt)
    ∧ located (VRef 1) h1 "base_model.h" new_list new
    ∧ new_list ≠ VRef 3
    ∧ length new = 2%nat
    ∧ (∀ k i, [4; -5] !! k = Some i
              → new !! k = seq_at [VRef 10; VRef 11; VRef 12; VRef 13; VRef 14] i)
    ∧ py_iter (VRef 3) h1 = (h1, Ok [VRef 10; VRef 11; VRef 12; VRef 13; VRef 14]).
Proof.
  apply (permute_layers__installs (VRef 1) gpt2_store "base_model.h" (VRef 3)
           [VRef 10; VRef 11; VRef 12; VRef 13; VRef 14] [4; -5] gpt2_store_located).
  repeat constructor; simpl; lia.
Defined.

Lemma permute_layers__compose_witness :
  ∃ h2 new_list new,
    (permute_layers_ (VRef 1) [4; 3; 2] ;;; permute_layers_ (VRef 1) [2; 0])
      gpt2_store = (h2, Ok tt)
    ∧ located (VRef 1) h2 "base_model.h" new_list new
    ∧ length new = 2%nat
    ∧ ∀ k i, [2; 0] !! k = Some i →
             ∃ j, seq_at [4; 3; 2] i = Some j
                  ∧ new !! k = seq_at [VRef 10; VRef 11; VRef 12; VRef 13; VRef 14] j.
Proof.
  apply (permute_layers__compose (VRef 1) gpt2_store "base_model.h" (VRef 3)
           [VRef 10; VRef 11; VRef 12; VRef 13; VRef 14] [4; 3; 2] [2; 0]
           gpt2_store_located).
  - repeat constructor; simpl; lia.
  - repeat constructor; simpl; lia.
Defined.

Lemma permute_layers__out_of_bounds_witness :
  permute_layers_ (VRef 1) [0; 5] gpt2_store = (gpt2_store, Raise IndexError).
Proof.
  apply (permute_layers__out_of_bounds (VRef 1) gpt2_store "base_model.h" (VRef 3)
           [VRef 10; VRef 11; VRef 12; VRef 13; VRef 14] [0; 5] 5
           gpt2_store_located).
  - repeat constructor.
  - unfold in_bounds. simpl. lia.
Defined.

Lemma layer_operations_on_empty_input_witness :
  (∃ h1, installed (delete_layers (VRef 1) []) (VRef 1) gpt2_store2 "base_model.h"
           (VRef 3) h1 [VRef 10; VRef 11])
  ∧ (∃ h1, installed (permute_layers (VRef 1) []) (VRef 1) gpt2_store2
             "base_model.h" (VRef 3) h1 [])
  ∧ (∀ replacements,
       ∃ h1, installed (replace_layers (VRef 1) [] replacements) (VRef 1) gpt2_store2
               "base_model.h" (VRef 3) h1 [VRef 10; VRef 11])
  ∧ (∀ indices,
       ∃ h1, installed (replace_layers (VRef 1) indices []) (VRef 1) gpt2_store2
               "base_model.h" (VRef 3) h1 [VRef 10; VRef 11]).
Proof.
  apply (layer_operations_on_empty_input (VRef 1) gpt2_store2 "base_model.h" (VRef 3)
           [VRef 10; VRef 11]).
  split; vm_compute; reflexivity.
Defined.

Lemma delete_layers_repeated_index_witness :
  ∃ h1 new,
    installed (delete_layers (VRef 1) [1; 1]) (VRef 1) gpt2_store "base_model.h"
      (VRef 3) h1 new
    ∧ length new = 3%nat
    ∧ (∀ j, (j < 1)%nat
            → new !! j = [VRef 10; VRef 11; VRef 12; VRef 13; VRef 14] !! j)
    ∧ (∀ j, (1 ≤ j)%nat
            → new !! j = [VRef 10; VRef 11; VRef 12; VRef 13; VRef 14] !! (j + 2)%nat).
Proof.
  apply (delete_layers_repeated_index (VRef 1) gpt2_store "base_model.h" (VRef 3)
           [VRef 10; VRef 11; VRef 12; VRef 13; VRef 14] 1 gpt2_store_located).
  - lia.
  - simpl. lia.
Defined.

Lemma layer_operations_propagate_locator_error_witness :
  with_ (scoped (VRef 10) (DeleteLayers [0])) (λ _, ret tt) gpt2_store
  = (gpt2_store, Raise ValueError)
  ∧ ∀ indices, permute_layers_ (VRef 10) indices gpt2_store
               = (gpt2_store, Raise ValueError).
Proof.
  apply (layer_operations_propagate_locator_error (A := unit) (VRef 10)
           (DeleteLayers [0]) gpt2_store ValueError (λ _, ret tt)).
  - intros key_path value Hop. discriminate Hop.
  - vm_compute. reflexivity.
Defined.


(** C4 as stated fails for [replace_layers]: an out-of-bounds index that
    has no replacement paired with it is never used, and the scope is
    entered without an error. *)
Lemma replace_layers_unpaired_index_not_checked :
  ¬ replace_raises_on_any_out_of_bounds.
Proof.
  intros Hclaim.
  destruct (Hclaim (VRef 1) gpt2_store "base_model.h" (VRef 3) _ [7] [] 7
              gpt2_store_located) as (h1 & Henter).
  - repeat constructor.
  - unfold in_bounds. simpl. lia.
  - vm_compute in Henter. discriminate Henter.
Qed.

(** C7 as stated fails when an index is repeated: with indices [[0, 0]]
    and replacements [[X, Y]] position 0 holds [Y], not [X]. *)
Lemma replace_layers_repeated_index_last_wins :
  ¬ replaced_positions_hold_replacements.
Proof.
  intros Hclaim.
  assert (seq_at [VRef 14; VRef 11; VRef 12; VRef 13] 0 = Some (VRef 13)) as Hat.
  { apply (Hclaim (VRef 1) gpt2_store4 "base_model.h" (VRef 3)
             [VRef 10; VRef 11; VRef 12; VRef 13] [0; 0] [VRef 13; VRef 14]
             (cm_enter (replace_layers (VRef 1) [0; 0] [VRef 13; VRef 14])
                gpt2_store4).1 _ gpt2_store4_located) with (k := 0%nat);
      [|done..].
    split; [vm_compute; reflexivity|].
    eexists. split_and!; [vm_compute; reflexivity|done|vm_compute; reflexivity]. }
  vm_compute in Hat. discriminate Hat.
Qed.

(** C8 as stated fails for [get_final_norm]: an OPT style model whose
    decoder has [final_layer_norm = None] has its [base_model] handle, of a
    recognized family, and the locator raises the configuration error. *)
Lemma get_final_norm_none_is_config_error :
  ¬ config_error_iff_no_handle get_final_norm.
Proof.
  intros Hclaim. destruct (Hclaim (VRef 1) opt_store) as [Hnone _].
  assert (handle (VRef 1) opt_store = None) as Hh by (apply Hnone; by vm_compute).
  vm_compute in Hh. discriminate Hh.
Qed.


End sample_runs.
